(** * Email triage system: a shallow embedding of [email_triage.py]

    The development follows the layout of [EmailTriageSystem]:

    - [PyStr]    Python [str] values and the string methods the class calls
                 ([lower], [strip], [split], [startswith], [replace], the
                 [in] operator and slicing);
    - [Regex]    the scanner behind [re.findall(r'\b[a-zA-Z]{3,}\b', ...)];
    - [Exc]      exceptions and [try ... except Exception];
    - [Triage]   the methods of the class, under their own names;
    - [Spec]     the notions the properties are stated with;
    - [Examples] sample messages and service behaviours.

    The external services are parameters: the AI model maps a prompt to a
    reply or an exception, the webhook maps a request to a status code or
    an exception.  Console output, the pause between two messages and the
    time stamp of a notification are left out.

    A [str] is a list of code points.  Code points are represented by
    [ascii], read as the range U+0000 .. U+00FF; the character tables below
    ([lower_char], [is_word], [py_isspace]) are the Unicode ones restricted
    to that range. *)

From Stdlib Require Import ZArith.
From Stdlib Require Import Ascii String.
From Stdlib Require Import List Bool Arith Lia Permutation Sorted.
Import ListNotations.

Set Implicit Arguments.

(* ===================================================================== *)
(** ** Python strings *)
(* ===================================================================== *)

Module PyStr.

Definition str := list ascii.

(** A literal of the source. *)
Definition lit (s : string) : str := list_ascii_of_string s.
Arguments lit s%_string.

Definition code (c : ascii) : nat := nat_of_ascii c.

Definition in_range (lo hi : nat) (c : ascii) : bool :=
  (lo <=? code c) && (code c <=? hi).

(** [A-Z], [a-z], [a-zA-Z] and [0-9]. *)
Definition is_ascii_upper (c : ascii) : bool := in_range 65 90 c.
Definition is_ascii_lower (c : ascii) : bool := in_range 97 122 c.
Definition is_ascii_letter (c : ascii) : bool :=
  is_ascii_lower c || is_ascii_upper c.
Definition is_ascii_digit (c : ascii) : bool := in_range 48 57 c.

(** [str.isalnum] above U+007F: the letters, the superscript digits and the
    vulgar fractions of the Latin-1 block. *)
Definition is_latin1_alnum (c : ascii) : bool :=
  (code c =? 170) || (code c =? 181) || (code c =? 186)
  || in_range 178 179 c || (code c =? 185) || in_range 188 190 c
  || in_range 192 214 c || in_range 216 246 c || in_range 248 255 c.

(** [\w] of a [str] pattern: alphanumeric or the underscore. *)
Definition is_word (c : ascii) : bool :=
  is_ascii_letter c || is_ascii_digit c || (code c =? 95) || is_latin1_alnum c.

(** [str.isspace], the characters [strip()] removes. *)
Definition py_isspace (c : ascii) : bool :=
  in_range 9 13 c || in_range 28 32 c || (code c =? 133) || (code c =? 160).

(** One character of [str.lower()]. *)
Definition lower_char (c : ascii) : ascii :=
  if is_ascii_upper c || (in_range 192 222 c && negb (code c =? 215))
  then ascii_of_nat (code c + 32)
  else c.

Definition py_lower (s : str) : str := map lower_char s.

Fixpoint str_eqb (a b : str) : bool :=
  match a, b with
  | [], [] => true
  | x :: a', y :: b' => Ascii.eqb x y && str_eqb a' b'
  | _, _ => false
  end.

(** [x in xs] for a list or a set of strings. *)
Definition str_mem (x : str) (xs : list str) : bool := existsb (str_eqb x) xs.

(** [s.startswith(p)]. *)
Fixpoint py_startswith (p s : str) : bool :=
  match p, s with
  | [], _ => true
  | _ :: _, [] => false
  | a :: p', b :: s' => Ascii.eqb a b && py_startswith p' s'
  end.

(** [sub in s]: [sub] occurs in [s] at some position. *)
Fixpoint py_in (sub s : str) : bool :=
  py_startswith sub s ||
  match s with
  | [] => false
  | _ :: s' => py_in sub s'
  end.

(** Cut [s] at every character satisfying [sep]; the pieces may be empty. *)
Fixpoint split_by (sep : ascii -> bool) (s : str) : list str :=
  match s with
  | [] => [[]]
  | c :: s' =>
      if sep c then [] :: split_by sep s'
      else match split_by sep s' with
           | l :: ls => (c :: l) :: ls
           | [] => [[c]]
           end
  end.

(** [s.split('\n')]. *)
Definition newline : ascii := ascii_of_nat 10.
Definition py_split_lines (s : str) : list str := split_by (Ascii.eqb newline) s.

Fixpoint lstrip (s : str) : str :=
  match s with
  | [] => []
  | c :: s' => if py_isspace c then lstrip s' else s
  end.

(** [s.strip()]. *)
Definition py_strip (s : str) : str := rev (lstrip (rev (lstrip s))).

(** [s.replace(old, new)] for a non-empty [old]: occurrences are replaced
    from the left and do not overlap; [skip] counts the characters of an
    occurrence still to be passed over. *)
Fixpoint replace_from (old new : str) (skip : nat) (s : str) : str :=
  match s with
  | [] => []
  | c :: s' =>
      match skip with
      | S n => replace_from old new n s'
      | 0 =>
          if py_startswith old s
          then new ++ replace_from old new (length old - 1) s'
          else c :: replace_from old new 0 s'
      end
  end.

Definition py_replace (old new s : str) : str := replace_from old new 0 s.

(** [s[:n]]. *)
Definition slice_to (n : nat) (s : str) : str := firstn n s.

(** [not s] for a value that is [None] or a string. *)
Definition falsy (s : option str) : bool :=
  match s with
  | None => true
  | Some [] => true
  | Some (_ :: _) => false
  end.

End PyStr.
Import PyStr.

(* ===================================================================== *)
(** ** The keyword pattern *)
(* ===================================================================== *)

Module Regex.

(** [\b] between the character before the position and the one at it: one
    side is a word character and the other is not; the two ends of the
    string count as non-word. *)
Definition word_opt (c : option ascii) : bool :=
  match c with
  | Some x => is_word x
  | None => false
  end.

Definition at_boundary (prev next : option ascii) : bool :=
  xorb (word_opt prev) (word_opt next).

(** The longest prefix matched by [[a-zA-Z]*]. *)
Fixpoint letters_prefix (s : str) : nat :=
  match s with
  | c :: s' => if is_ascii_letter c then S (letters_prefix s') else 0
  | [] => 0
  end.

(** The greedy repetition [{3,}] followed by [\b]: try [k] letters, then
    [k-1], ..., down to 3, and keep the first length after which the
    closing [\b] holds. *)
Fixpoint backtrack (k : nat) (s : str) : option str :=
  match k with
  | 0 => None
  | S k' =>
      if 3 <=? k then
        if at_boundary (last (map Some (firstn k s)) None) (hd_error (skipn k s))
        then Some (firstn k s)
        else backtrack k' s
      else None
  end.

(** One attempt of [\b[a-zA-Z]{3,}\b] at a position; [prev] is the character
    before the position. *)
Definition match_here (prev : option ascii) (s : str) : option str :=
  if at_boundary prev (hd_error s)
  then backtrack (letters_prefix s) s
  else None.

(** [re.findall]: attempts from left to right; after a match the scan
    resumes at its end ([skip] characters of the match remain to be passed
    over), after a failure at the next position. *)
Fixpoint scan (prev : option ascii) (skip : nat) (s : str) : list str :=
  match s with
  | [] => []
  | c :: s' =>
      match skip with
      | S n => scan (Some c) n s'
      | 0 =>
          match match_here prev s with
          | Some w => w :: scan (Some c) (length w - 1) s'
          | None => scan (Some c) 0 s'
          end
      end
  end.

Definition findall_keyword_pattern (s : str) : list str := scan None 0 s.

End Regex.
Import Regex.

(* ===================================================================== *)
(** ** Exceptions *)
(* ===================================================================== *)

Module Exc.

(** The exceptions the class can meet: a missing dictionary key, and a
    failure of an external service (the AI model, the HTTP request). *)
Inductive exn : Type :=
| KeyError (key : str)
| ServiceError.

Inductive exc (A : Type) : Type :=
| Ok (a : A)
| Raise (e : exn).
Arguments Ok {A} a.
Arguments Raise {A} e.

Definition bind {A B : Type} (m : exc A) (k : A -> exc B) : exc B :=
  match m with
  | Ok a => k a
  | Raise e => Raise e
  end.

(** [try: body  except Exception as e: handler(e)]. *)
Definition try_except {A : Type} (body : exc A) (handler : exn -> exc A) : exc A :=
  match body with
  | Ok a => Ok a
  | Raise e => handler e
  end.

Fixpoint mapM {A B : Type} (f : A -> exc B) (l : list A) : exc (list B) :=
  match l with
  | [] => Ok []
  | x :: l' =>
      bind (f x) (fun y => bind (mapM f l') (fun ys => Ok (y :: ys)))
  end.

End Exc.
Import Exc.

Declare Scope exc_scope.
Delimit Scope exc_scope with exc.
Notation "x <- m ;; k" := (bind m (fun x => k))
  (at level 61, m at next level, right associativity) : exc_scope.
Notation "' pat <- m ;; k" := (bind m (fun x => match x with pat => k end))
  (at level 61, pat pattern, m at next level, right associativity) : exc_scope.
Open Scope exc_scope.

(* ===================================================================== *)
(** ** The class [EmailTriageSystem] *)
(* ===================================================================== *)

Module Triage.

(** *** Dictionaries, in insertion order *)

Definition dict (V : Type) : Type := list (str * V).

Fixpoint dict_get {V : Type} (k : str) (d : dict V) : option V :=
  match d with
  | [] => None
  | (k', v) :: d' => if str_eqb k k' then Some v else dict_get k d'
  end.

(** [d[k] = v]: an existing key keeps its place, a new one goes last. *)
Fixpoint dict_set {V : Type} (k : str) (v : V) (d : dict V) : dict V :=
  match d with
  | [] => [(k, v)]
  | (k', v') :: d' =>
      if str_eqb k k' then (k', v) :: d' else (k', v') :: dict_set k v d'
  end.

(** [d[k]]. *)
Definition getitem {V : Type} (k : str) (d : dict V) : exc V :=
  match dict_get k d with
  | Some v => Ok v
  | None => Raise (KeyError k)
  end.

(** [d.get(k, default)]. *)
Definition get_default {V : Type} (k : str) (default : V) (d : dict V) : V :=
  match dict_get k d with
  | Some v => v
  | None => default
  end.

(** *** [collections.Counter] *)

(** [c[k] += 1]. *)
Fixpoint counter_add (k : str) (c : dict nat) : dict nat :=
  match c with
  | [] => [(k, 1)]
  | (k', n) :: c' =>
      if str_eqb k k' then (k', S n) :: c' else (k', n) :: counter_add k c'
  end.

(** [Counter(iterable)]: keys in the order they are first met. *)
Definition Counter (l : list str) : dict nat :=
  fold_left (fun c k => counter_add k c) l [].

(** [sorted(items, key=itemgetter(1), reverse=True)]: a stable sort, equal
    counts keep the order of the items. *)
Fixpoint insert_desc (x : str * nat) (l : list (str * nat)) : list (str * nat) :=
  match l with
  | [] => [x]
  | y :: l' => if snd x <? snd y then y :: insert_desc x l' else x :: l
  end.

Definition sorted_desc (l : list (str * nat)) : list (str * nat) :=
  fold_right insert_desc [] l.

(** [c.most_common(n)], that is [heapq.nlargest(n, c.items(), key=itemgetter(1))],
    which the library documents as the first [n] items of the sort above. *)
Definition most_common (n : nat) (c : dict nat) : list (str * nat) :=
  firstn n (sorted_desc c).

(** *** Data *)

(** The dictionaries built by [fetch_unread_emails]. *)
Record Message : Type := {
  id : str;
  subject : str;
  sender : str;
  body : str;
  timestamp : str
}.

(** The entries of [self.processed_emails]. *)
Record TriageRecord : Type := {
  r_timestamp : str;
  r_category : str;
  r_summary : str;
  r_sender : str;
  r_subject : str;
  r_keywords : list str
}.

(** The mutable attributes of the object. *)
Record System : Type := {
  processed_emails : list TriageRecord;
  category_keywords : dict (list str)
}.

(** The part of [self.config] the methods read; [slack_channels] is absent
    from a [config.json] that does not list it. *)
Record Config : Type := {
  slack_webhook_url : str;
  slack_channels : option (dict str)
}.

(** [self.categories]. *)
Definition categories : list str :=
  [lit "Product Support"; lit "Billing"; lit "General Inquiry"].

(** The state [__init__] leaves. *)
Definition init : System := {|
  processed_emails := [];
  category_keywords := map (fun cat => (cat, [])) categories
|}.

(** *** [extract_keywords] *)

Definition stop_words : list str :=
  map lit
    ["the"; "is"; "at"; "which"; "on"; "and"; "a"; "to"; "are"; "as"; "was";
     "for"; "with"; "this"; "that"; "it"; "from"; "by"; "have"; "has"; "had";
     "be"; "been"; "or"; "an"; "will"; "can"; "could"; "would"; "should"]%string.

Definition extract_keywords (text : str) : list str :=
  let words := findall_keyword_pattern (py_lower text) in
  filter (fun word => negb (str_mem word stop_words) && (2 <? length word)) words.

(** *** [fallback_classification] *)

Definition product_support_triggers : list str :=
  map lit ["bug"; "error"; "not working"; "issue"; "problem"; "feature"]%string.

Definition billing_triggers : list str :=
  map lit ["bill"; "payment"; "invoice"; "charge"; "refund"; "price"]%string.

(** [any(word in text for word in words)]. *)
Definition any_in (words : list str) (text : str) : bool :=
  existsb (fun word => py_in word text) words.

Definition fallback_classification (email_data : Message) : str * str :=
  let text := py_lower (subject email_data ++ lit " " ++ body email_data) in
  let category :=
    if any_in product_support_triggers text then lit "Product Support"
    else if any_in billing_triggers text then lit "Billing"
    else lit "General Inquiry" in
  let summary :=
    lit "Email from " ++ sender email_data ++ lit " - "
      ++ slice_to 30 (subject email_data) ++ lit "..." in
  (category, summary).

(** *** [classify_and_summarize_email] *)

(** [self.model.generate_content(prompt).text]: the reply of the service to
    a prompt, or the exception the call ends with. *)
Definition Model : Type := str -> exc str.

Definition build_prompt (email_data : Message) : str :=
  lit "
        Analyze the following customer email and:
        1. Classify it into ONE of these categories: Product Support, Billing, or General Inquiry
        2. Generate a concise one-sentence summary (max 15 words)
        
        Email Subject: " ++ subject email_data ++ lit "
        Email Body: " ++ slice_to 500 (body email_data) ++ lit "
        
        Respond in this exact format:
        Category: [Product Support|Billing|General Inquiry]
        Summary: [one sentence summary]
        ".

(** One turn of the loop over the lines of the reply; the pair holds the
    variables [category] and [summary]. *)
Definition parse_line (vars : option str * option str) (line : str)
  : option str * option str :=
  if py_startswith (lit "Category:") line
  then (Some (py_strip (py_replace (lit "Category:") [] line)), snd vars)
  else if py_startswith (lit "Summary:") line
  then (fst vars, Some (py_strip (py_replace (lit "Summary:") [] line)))
  else vars.

Definition parse_response (response_text : str) : option str * option str :=
  fold_left parse_line (py_split_lines response_text) (None, None).

(** [category not in self.categories] replaces the category. *)
Definition validate_category (category : option str) : str :=
  match category with
  | Some c => if str_mem c categories then c else lit "General Inquiry"
  | None => lit "General Inquiry"
  end.

Definition default_summary (email_data : Message) : str :=
  lit "Email from " ++ sender email_data ++ lit " regarding " ++ subject email_data.

(** [if not summary] replaces the summary. *)
Definition validate_summary (email_data : Message) (summary : option str) : str :=
  match summary with
  | Some (c :: s) => c :: s
  | _ => default_summary email_data
  end.

(** The body of the [try] once the reply is there. *)
Definition validated_result (email_data : Message) (reply : str) : str * str :=
  let response_text := py_strip reply in
  let '(category, summary) := parse_response response_text in
  (validate_category category, validate_summary email_data summary).

Definition classify_and_summarize_email (model : Model) (email_data : Message)
  : exc (str * str) :=
  let prompt := build_prompt email_data in
  try_except
    (reply <- model prompt ;;
     Ok (validated_result email_data reply))
    (fun _ => Ok (fallback_classification email_data)).

(** *** [send_slack_notification] *)

Record SlackMessage : Type := {
  channel : str;
  color : str;
  title : str;
  value : str;
  from_field : str;
  subject_field : str
}.

(** [requests.post(url, json=message, ...).status_code], or the exception
    the request ends with. *)
Definition Http : Type := str -> SlackMessage -> exc nat.

Definition get_category_color (category : str) : str :=
  get_default category (lit "#808080")
    [(lit "Product Support", lit "#ff6b6b");
     (lit "Billing", lit "#4ecdc4");
     (lit "General Inquiry", lit "#45b7d1")].

Definition send_slack_notification (config : Config) (post : Http)
    (email_data : Message) (category summary : str) : exc bool :=
  try_except
    (channels <- match slack_channels config with
                 | Some d => Ok d
                 | None => Raise (KeyError (lit "slack_channels"))
                 end ;;
     let channel := get_default category (lit "#general") channels in
     let slack_message := {|
       channel := channel;
       color := get_category_color category;
       title := lit "New " ++ category ++ lit " Email";
       value := summary;
       from_field := sender email_data;
       subject_field :=
         slice_to 50 (subject email_data)
           ++ (if 50 <? length (subject email_data) then lit "..." else [])
     |} in
     status_code <- post (slack_webhook_url config) slack_message ;;
     if status_code =? 200 then Ok true else Ok false)
    (fun _ => Ok false).

(** *** [update_analytics] and [generate_keyword_analytics] *)

Definition make_record (email_data : Message) (category summary : str)
    (keywords : list str) : TriageRecord := {|
  r_timestamp := timestamp email_data;
  r_category := category;
  r_summary := summary;
  r_sender := sender email_data;
  r_subject := subject email_data;
  r_keywords := keywords
|}.

Definition update_analytics (self : System) (email_data : Message)
    (category summary : str) : exc System :=
  let text := subject email_data ++ lit " " ++ body email_data in
  let keywords := extract_keywords text in
  stored <- getitem category (category_keywords self) ;;
  Ok {| processed_emails :=
          processed_emails self ++ [make_record email_data category summary keywords];
        category_keywords :=
          dict_set category (stored ++ keywords) (category_keywords self) |}.

Record CategoryAnalytics : Type := {
  top_keywords : list (str * nat);
  total_emails : nat
}.

(** [sum(1 for email in self.processed_emails if email['category'] == category)]. *)
Definition count_category (self : System) (category : str) : nat :=
  length (filter (fun email => str_eqb (r_category email) category)
                 (processed_emails self)).

(** The body of the loop over [self.categories]. *)
Definition category_analytics (self : System) (category : str)
    (keywords : list str) : CategoryAnalytics :=
  match keywords with
  | _ :: _ =>
      let keyword_counts := Counter keywords in
      {| top_keywords := most_common 5 keyword_counts;
         total_emails := count_category self category |}
  | [] => {| top_keywords := []; total_emails := 0 |}
  end.

Definition generate_keyword_analytics (self : System)
  : exc (dict CategoryAnalytics) :=
  mapM (fun category =>
          keywords <- getitem category (category_keywords self) ;;
          Ok (category, category_analytics self category keywords))
       categories.

(** *** [run_triage_workflow] *)

(** The loop over the fetched emails.  The [i]-th turn meets the service
    behaviours [ai i] and [post i]; the pause between two turns has no
    counterpart here. *)
Fixpoint triage_loop (config : Config) (ai : nat -> Model) (post : nat -> Http)
    (i : nat) (self : System) (emails : list Message) : exc System :=
  match emails with
  | [] => Ok self
  | email_data :: rest =>
      '(category, summary) <- classify_and_summarize_email (ai i) email_data ;;
      _ <- send_slack_notification config (post i) email_data category summary ;;
      self' <- update_analytics self email_data category summary ;;
      triage_loop config ai post (S i) self' rest
  end.

(** The workflow from the fetched batch to the end of the loop; an empty
    batch returns at once. *)
Definition run_triage_workflow (config : Config) (ai : nat -> Model)
    (post : nat -> Http) (self : System) (emails : list Message) : exc System :=
  match emails with
  | [] => Ok self
  | _ :: _ => triage_loop config ai post 0 self emails
  end.

End Triage.
Import Triage.

(* ===================================================================== *)
(** ** Notions used to state the properties *)
(* ===================================================================== *)

Module Spec.

(** The pieces of a text between non-word characters: its maximal runs of
    word characters, an empty piece standing between two adjacent
    non-word characters and at either end. *)
Definition word_runs (s : str) : list str :=
  split_by (fun c => negb (is_word c)) s.

(** Three or more letters of [a-zA-Z]. *)
Definition keyword_shape (w : str) : bool :=
  (3 <=? length w) && forallb is_ascii_letter w.


(** [sub] is a substring of [s]. *)
Definition occurs_in (sub s : str) : Prop :=
  exists pre post, s = pre ++ sub ++ post.




(** The states of the object: the one [__init__] leaves, and those a
    successful [update_analytics] leads to. *)
Inductive reachable : System -> Prop :=
| reachable_init : reachable init
| reachable_update : forall self email_data category summary self',
    reachable self ->
    update_analytics self email_data category summary = Ok self' ->
    reachable self'.

(** Counts never increase along the list. *)
Definition descending (l : list (str * nat)) : Prop :=
  StronglySorted (fun a b => snd b <= snd a) l.

(** The items of a table with a given count, in table order. *)
Definition with_count (n : nat) (l : list (str * nat)) : list (str * nat) :=
  filter (fun p => snd p =? n) l.

(** The number of times [k] occurs in [l]. *)
Definition occurrences (k : str) (l : list str) : nat :=
  length (filter (str_eqb k) l).

(** The distinct elements of [l], each at the place of its first
    occurrence. *)
Definition first_seen (l : list str) : list str :=
  fold_left (fun seen k => if str_mem k seen then seen else seen ++ [k]) l [].

(** The character before the position reached after reading [a]. *)
Definition prev_after (prev : option ascii) (a : str) : option ascii :=
  last (map Some a) prev.

(** What identifies the message a record was made from. *)
Definition record_source (r : TriageRecord) : str * str * str :=
  (r_timestamp r, r_sender r, r_subject r).

Definition message_source (m : Message) : str * str * str :=
  (timestamp m, sender m, subject m).

End Spec.
Import Spec.

(* ===================================================================== *)
(** ** Sample inputs *)
(* ===================================================================== *)

Module Examples.

Definition message (subject sender body timestamp : string) : Message := {|
  id := lit timestamp;
  subject := lit subject;
  sender := lit sender;
  body := lit body;
  timestamp := lit timestamp
|}.

Definition login_issue : Message :=
  message "Login issue" "customer1@example.com" "error invalid credentials" "t1".

Definition invoice_question : Message :=
  message "Invoice question" "billing.inquiry@company.com"
          "charged twice for basic plan" "t2".

Definition greeting : Message :=
  message "Hi" "newuser@gmail.com" "ok" "t3".

Definition terror_novel : Message :=
  message "Reign of terror" "reader@books.org" "a historical novel" "t4".

Definition password_reset : Message :=
  message "How to reset my password?" "newuser@gmail.com"
          "My username is newuser123." "t5".

Definition batch : list Message :=
  [login_issue; invoice_question; greeting; terror_novel; password_reset].

(** The AI service is down. *)
Definition ai_down : Model := fun _ => Raise ServiceError.

(** The AI service answers [reply] whatever the prompt. *)
Definition ai_says (reply : string) : Model := fun _ => Ok (lit reply).

(** The webhook accepts every request but the [k]-th, which fails. *)
Definition post_failing_at (k : nat) : nat -> Http :=
  fun i _ _ => if i =? k then Raise ServiceError else Ok 200.

Definition config : Config := {|
  slack_webhook_url := lit "https://hooks.slack.com/services/T/B/X";
  slack_channels :=
    Some [(lit "Product Support", lit "#product-support");
          (lit "Billing", lit "#billing");
          (lit "General Inquiry", lit "#general")]
|}.

(** The state after [login_issue] has been recorded under Product Support. *)
Definition recorded : System :=
  match update_analytics init login_issue (lit "Product Support")
          (lit "Email from customer1@example.com - Login issue...") with
  | Ok self => self
  | Raise _ => init
  end.

End Examples.

(* ===================================================================== *)
(** ** Further notions: the log, the replies, the notifications *)
(* ===================================================================== *)

Module Derived.

(** The keywords of the records filed under [category], in log order. *)
Definition keywords_of_category (log : list TriageRecord) (category : str)
  : list str :=
  concat (map r_keywords
              (filter (fun r => str_eqb (r_category r) category) log)).

(** The totals a snapshot reports, in the order of its entries. *)
Definition totals (analytics : dict CategoryAnalytics) : list nat :=
  map (fun entry => total_emails (snd entry)) analytics.

(** A non-empty string whose first and last characters are not white
    space. *)
Definition stripped (s : str) : bool :=
  match s with
  | [] => false
  | c :: _ => negb (py_isspace c) && negb (py_isspace (last s c))
  end.

(** A reply in the format the prompt asks for. *)
Definition format_reply (category summary : str) : str :=
  lit "Category: " ++ category ++ [newline] ++ lit "Summary: " ++ summary.

(** The request [send_slack_notification] hands to the webhook. *)
Definition slack_message_for (channels : dict str) (email_data : Message)
    (category summary : str) : SlackMessage := {|
  channel := get_default category (lit "#general") channels;
  color := get_category_color category;
  title := lit "New " ++ category ++ lit " Email";
  value := summary;
  from_field := sender email_data;
  subject_field :=
    slice_to 50 (subject email_data)
      ++ (if 50 <? length (subject email_data) then lit "..." else [])
|}.

(** [response.status_code == 200] for the outcome of a request. *)
Definition accepted (outcome : exc nat) : bool :=
  match outcome with
  | Ok status_code => status_code =? 200
  | Raise _ => false
  end.

(** The record the loop makes of a message when the service behaves as
    [model]. *)
Definition record_for (model : Model) (email_data : Message) : TriageRecord :=
  let keywords :=
    extract_keywords (subject email_data ++ lit " " ++ body email_data) in
  match classify_and_summarize_email model email_data with
  | Ok (category, summary) => make_record email_data category summary keywords
  | Raise _ =>
      let '(category, summary) := fallback_classification email_data in
      make_record email_data category summary keywords
  end.

(** The records of a batch, the first message meeting [ai i]. *)
Fixpoint records_for (ai : nat -> Model) (i : nat) (emails : list Message)
  : list TriageRecord :=
  match emails with
  | [] => []
  | email_data :: rest => record_for (ai i) email_data :: records_for ai (S i) rest
  end.

End Derived.
Import Derived.

(* ===================================================================== *)
(** ** The demo subclass, [demo.py] *)
(* ===================================================================== *)

Module Demo.

(** [DemoEmailTriageSystem.send_slack_notification]: the channel is looked
    up and the notification is printed, no request is made. *)
Definition send_slack_notification (config : Config) (email_data : Message)
    (category summary : str) : exc bool :=
  try_except
    (channels <- match slack_channels config with
                 | Some d => Ok d
                 | None => Raise (KeyError (lit "slack_channels"))
                 end ;;
     let channel := get_default category (lit "#general") channels in
     Ok true)
    (fun _ => Ok false).

(** The loop of [run_demo] over the sample emails. *)
Fixpoint demo_loop (config : Config) (ai : nat -> Model) (i : nat)
    (self : System) (emails : list Message) : exc System :=
  match emails with
  | [] => Ok self
  | email_data :: rest =>
      '(category, summary) <- classify_and_summarize_email (ai i) email_data ;;
      _ <- send_slack_notification config email_data category summary ;;
      self' <- update_analytics self email_data category summary ;;
      demo_loop config ai (S i) self' rest
  end.

End Demo.

(* ===================================================================== *)
(** ** The analytics report, [save_analytics_report] *)
(* ===================================================================== *)

Module Reports.

(** [a < b] on strings: the order of the code points, a proper prefix
    coming first. *)
Fixpoint str_ltb (a b : str) : bool :=
  match a, b with
  | _, [] => false
  | [], _ :: _ => true
  | x :: a', y :: b' =>
      (code x <? code y) || ((code x =? code y) && str_ltb a' b')
  end.

(** [max(iterable, key=key)] once a first item is there: a later item
    replaces the best so far only when its key is greater. *)
Fixpoint max_from {A : Type} (key : A -> nat) (best : A) (l : list A) : A :=
  match l with
  | [] => best
  | x :: l' => max_from key (if key best <? key x then x else best) l'
  end.

(** [max(iterable, key=key)]; an empty iterable raises [ValueError]. *)
Definition py_max {A : Type} (key : A -> nat) (l : list A) : option A :=
  match l with
  | [] => None
  | x :: l' => Some (max_from key x l')
  end.

(** [min(strings)] and [max(strings)] once a first item is there. *)
Fixpoint str_min_from (best : str) (l : list str) : str :=
  match l with
  | [] => best
  | x :: l' => str_min_from (if str_ltb x best then x else best) l'
  end.

Fixpoint str_max_from (best : str) (l : list str) : str :=
  match l with
  | [] => best
  | x :: l' => str_max_from (if str_ltb best x then x else best) l'
  end.

Record Report : Type := {
  generated_at : str;
  total_emails_processed : nat;
  report_categories : dict CategoryAnalytics;
  most_active_category : option str;
  period_start : option str;
  period_end : option str
}.

(** [analytics[k]['total_emails']] for a key of [analytics]. *)
Definition total_of (analytics : dict CategoryAnalytics) (k : str) : nat :=
  match dict_get k analytics with
  | Some entry => total_emails entry
  | None => 0
  end.

(** The dictionary [report] built inside the [try]; [now] is the result
    of [datetime.now().isoformat()]. *)
Definition build_report (now : str) (self : System) : exc Report :=
  analytics <- generate_keyword_analytics self ;;
  let timestamps := map r_timestamp (processed_emails self) in
  Ok {| generated_at := now;
        total_emails_processed := length (processed_emails self);
        report_categories := analytics;
        most_active_category :=
          match analytics with
          | [] => None
          | _ :: _ => py_max (total_of analytics) (map fst analytics)
          end;
        period_start :=
          match timestamps with
          | [] => None
          | t :: ts => Some (str_min_from t ts)
          end;
        period_end :=
          match timestamps with
          | [] => None
          | t :: ts => Some (str_max_from t ts)
          end |}.

(** [save_analytics_report]: [default_name] is the name made from the
    clock when none is given, [write] the outcome of opening the file and
    dumping the report into it. *)
Definition save_analytics_report (default_name now : str)
    (write : str -> Report -> exc unit) (self : System)
    (filename : option str) : exc (option str) :=
  let filename :=
    match filename with
    | Some (c :: name) => c :: name
    | _ => default_name
    end in
  try_except
    (report <- build_report now self ;;
     _ <- write filename report ;;
     Ok (Some filename))
    (fun _ => Ok None).

End Reports.

(* ===================================================================== *)
(** ** Reading the inbox, [fetch_unread_emails] *)
(* ===================================================================== *)

Module Mailbox.

(** A parsed message or one of its parts: a leaf with its content type and
    the outcome of [get_payload(decode=True).decode()], or a container with
    its sub-parts. *)
#[warnings="-register-all"]
Inductive MimePart : Type :=
| Leaf (content_type : str) (text : exc str)
| Multipart (content_type : str) (parts : list MimePart).

Definition is_multipart (p : MimePart) : bool :=
  match p with
  | Leaf _ _ => false
  | Multipart _ _ => true
  end.

Definition get_content_type (p : MimePart) : str :=
  match p with
  | Leaf t _ => t
  | Multipart t _ => t
  end.

(** [part.get_payload(decode=True).decode()]; the payload of a container
    decodes to [None], which has no [decode]. *)
Definition decoded_payload (p : MimePart) : exc str :=
  match p with
  | Leaf _ text => text
  | Multipart _ _ => Raise ServiceError
  end.

(** [msg.walk()]: the part itself, then its sub-parts, depth first. *)
Fixpoint walk (p : MimePart) : list MimePart :=
  match p with
  | Leaf _ _ => [p]
  | Multipart _ parts => p :: flat_map walk parts
  end.

(** The loop over the parts: the first part of type text/plain gives the
    body, and the loop ends there. *)
Fixpoint first_plain (parts : list MimePart) : exc str :=
  match parts with
  | [] => Ok []
  | part :: rest =>
      if str_eqb (get_content_type part) (lit "text/plain")
      then decoded_payload part
      else first_plain rest
  end.

Definition extract_email_body (msg : MimePart) : exc str :=
  body <- (if is_multipart msg then first_plain (walk msg)
           else decoded_payload msg) ;;
  Ok (py_strip body).

(** What the method reads of a fetched message: the outcome of decoding
    the first chunk of the Subject header, the From header (taken as
    present), the parsed content. *)
Record RawEmail : Type := {
  subject_header : exc str;
  from_header : str;
  content : MimePart
}.

(** An item of the data [mail.fetch] returns. *)
Inductive ResponsePart : Type :=
| Tuple (raw : RawEmail)
| Other.

(** The mail server: the ids [mail.search(None, 'UNSEEN')] lists and the
    data [mail.fetch(email_id, '(RFC822)')] returns, or the exception the
    call ends with. *)
Record Imap : Type := {
  search_unseen : exc (list str);
  fetch_rfc822 : str -> exc (list ResponsePart)
}.

(** [l[-n:]]. *)
Definition last_n {A : Type} (n : nat) (l : list A) : list A :=
  skipn (length l - n) l.

(** One turn of the inner loop; [clock k] is [datetime.now().isoformat()]
    at the time the [k]-th message is appended. *)
Definition read_part (clock : nat -> str) (email_id : str)
    (emails : list Message) (part : ResponsePart) : exc (list Message) :=
  match part with
  | Other => Ok emails
  | Tuple raw =>
      subject <- subject_header raw ;;
      let sender := from_header raw in
      body <- extract_email_body (content raw) ;;
      Ok (emails ++ [{| id := email_id;
                        subject := subject;
                        sender := sender;
                        body := body;
                        timestamp := clock (length emails) |}])
  end.

Fixpoint read_parts (clock : nat -> str) (email_id : str)
    (emails : list Message) (msg_data : list ResponsePart) : exc (list Message) :=
  match msg_data with
  | [] => Ok emails
  | part :: rest =>
      emails' <- read_part clock email_id emails part ;;
      read_parts clock email_id emails' rest
  end.

Fixpoint read_ids (mail : Imap) (clock : nat -> str) (emails : list Message)
    (email_ids : list str) : exc (list Message) :=
  match email_ids with
  | [] => Ok emails
  | email_id :: rest =>
      msg_data <- fetch_rfc822 mail email_id ;;
      emails' <- read_parts clock email_id emails msg_data ;;
      read_ids mail clock emails' rest
  end.

Definition fetch_unread_emails (mail : Imap) (clock : nat -> str)
  : exc (list Message) :=
  try_except
    (email_ids <- search_unseen mail ;;
     read_ids mail clock [] (last_n 10 email_ids))
    (fun _ => Ok []).

End Mailbox.

Module MailboxSpec.

Import Mailbox.

(** The fetched messages among the items of a response. *)
Fixpoint tuples (msg_data : list ResponsePart) : list RawEmail :=
  match msg_data with
  | [] => []
  | Tuple raw :: rest => raw :: tuples rest
  | Other :: rest => tuples rest
  end.

(** The content types of the parts met before the first text/plain one. *)
Definition is_plain (p : MimePart) : bool :=
  str_eqb (get_content_type p) (lit "text/plain").

(** A plain-text message and a mail server with two unread messages, the
    second of which cannot be fetched when [broken] is set. *)
Definition plain_mail (subject body : string) : RawEmail := {|
  subject_header := Ok (lit subject);
  from_header := lit "customer1@example.com";
  content := Leaf (lit "text/plain") (Ok (lit body))
|}.

Definition sample_server (broken : bool) : Imap := {|
  search_unseen := Ok [lit "1"; lit "2"];
  fetch_rfc822 := fun email_id =>
    if str_eqb email_id (lit "2") then
      if broken then Raise ServiceError
      else Ok [Tuple (plain_mail "Invoice question" "charged twice "); Other]
    else Ok [Tuple (plain_mail "Login issue" " error invalid credentials"); Other]
|}.

Definition sample_clock (k : nat) : str :=
  if k =? 0 then lit "2024-01-01T10:00:00" else lit "2024-01-01T10:00:01".

(** A message in two alternatives, HTML first. *)
Definition alternative_mail : MimePart :=
  Multipart (lit "multipart/alternative")
    [Leaf (lit "text/html") (Ok (lit "<p>Hello</p>"));
     Leaf (lit "text/plain") (Ok (lit "  Hello
"));
     Leaf (lit "text/plain") (Raise ServiceError)].

End MailboxSpec.

(* ===================================================================== *)
(** ** The configuration, [load_config] *)
(* ===================================================================== *)

Module Settings.

(** The values [json.load] builds and the ones the method builds itself:
    [None], booleans, integers, strings, lists and dictionaries (entries
    with distinct keys).  Numbers with a fractional part are not
    represented. *)
#[warnings="-register-all"]
Inductive jvalue : Type :=
| JNull
| JBool (b : bool)
| JInt (z : Z)
| JStr (s : str)
| JList (items : list jvalue)
| JDict (entries : list (str * jvalue)).

(** [bool(v)]. *)
Definition truthy (v : jvalue) : bool :=
  match v with
  | JNull => false
  | JBool b => b
  | JInt z => negb (Z.eqb z 0)
  | JStr s => negb (str_eqb s [])
  | JList items => match items with [] => false | _ :: _ => true end
  | JDict entries => match entries with [] => false | _ :: _ => true end
  end.

(** What [open('config.json')] followed by [json.load] ends with. *)
Inductive FileOutcome : Type :=
| FileNotFound
| Loaded (v : jvalue)
| ReadFailure.

(** The exceptions that leave [load_config]. *)
Inductive ConfigError : Type :=
| MissingConfiguration (key : str)
| InvalidPort
| NotAMapping
| CannotRead.

Inductive loaded (A : Type) : Type :=
| Config_ok (a : A)
| Config_error (e : ConfigError).
Arguments Config_ok {A} a.
Arguments Config_error {A} e.

(** [os.getenv(name)] and [os.getenv(name, default)]. *)
Definition getenv (env : dict str) (name : str) : jvalue :=
  match dict_get name env with
  | Some v => JStr v
  | None => JNull
  end.

Definition getenv_default (env : dict str) (name default : str) : str :=
  get_default name default env.

Definition default_channels : jvalue :=
  JDict [(lit "Product Support", JStr (lit "#product-support"));
         (lit "Billing", JStr (lit "#billing"));
         (lit "General Inquiry", JStr (lit "#general"))].

(** The dictionary built from the environment; [py_int] is [int] on
    strings, [None] standing for [ValueError]. *)
Definition config_from_env (py_int : str -> option Z)
    (env : dict str) : loaded jvalue :=
  match py_int (getenv_default env (lit "EMAIL_PORT") (lit "993")) with
  | None => Config_error InvalidPort
  | Some port =>
      Config_ok
        (JDict [(lit "gemini_api_key", getenv env (lit "GEMINI_API_KEY"));
                (lit "email_server",
                 JStr (getenv_default env (lit "EMAIL_SERVER") (lit "imap.gmail.com")));
                (lit "email_port", JInt port);
                (lit "email_username", getenv env (lit "EMAIL_USERNAME"));
                (lit "email_password", getenv env (lit "EMAIL_PASSWORD"));
                (lit "slack_webhook_url", getenv env (lit "SLACK_WEBHOOK_URL"));
                (lit "slack_channels", default_channels)])
  end.

Definition required_keys : list str :=
  [lit "gemini_api_key"; lit "email_username"; lit "email_password";
   lit "slack_webhook_url"].

(** [config.get(key)]; a value that is not a dictionary has no [get]. *)
Definition config_get (config : jvalue) (key : str) : loaded jvalue :=
  match config with
  | JDict entries =>
      match dict_get key entries with
      | Some v => Config_ok v
      | None => Config_ok JNull
      end
  | _ => Config_error NotAMapping
  end.

(** The loop over [required_keys]. *)
Fixpoint validate (config : jvalue) (keys : list str) : loaded jvalue :=
  match keys with
  | [] => Config_ok config
  | key :: rest =>
      match config_get config key with
      | Config_error e => Config_error e
      | Config_ok v =>
          if truthy v then validate config rest
          else Config_error (MissingConfiguration key)
      end
  end.

Definition load_config (py_int : str -> option Z)
    (file : FileOutcome) (env : dict str) : loaded jvalue :=
  match
    match file with
    | Loaded config => Config_ok config
    | FileNotFound => config_from_env py_int env
    | ReadFailure => Config_error CannotRead
    end
  with
  | Config_ok config => validate config required_keys
  | Config_error e => Config_error e
  end.

(** The dictionary holds a true value under [key]. *)
Definition has_setting (entries : list (str * jvalue)) (key : str) : bool :=
  match dict_get key entries with
  | Some v => truthy v
  | None => false
  end.

(** [int] on the port numbers used below. *)
Definition sample_int (s : str) : option Z :=
  if str_eqb s (lit "993") then Some 993%Z
  else if str_eqb s (lit "143") then Some 143%Z
  else None.

(** An environment with the four required settings. *)
Definition sample_env : dict str :=
  [(lit "GEMINI_API_KEY", lit "key");
   (lit "EMAIL_USERNAME", lit "me@example.com");
   (lit "EMAIL_PASSWORD", lit "secret");
   (lit "SLACK_WEBHOOK_URL", lit "https://hooks.slack.com/services/T/B/X")].

(** A configuration file with the four required settings and nothing
    else. *)
Definition minimal_file : jvalue :=
  JDict [(lit "gemini_api_key", JStr (lit "key"));
         (lit "email_username", JStr (lit "me@example.com"));
         (lit "email_password", JStr (lit "secret"));
         (lit "slack_webhook_url", JStr (lit "https://hooks.slack.com/services/T/B/X"))].

End Settings.

(* ===================================================================== *)
(** ** Characters and strings *)
(* ===================================================================== *)

Section Characters.

Ltac by_cases c :=
  destruct c as [[] [] [] [] [] [] [] []]; vm_compute; intros; congruence.

Lemma letter_is_word (c : ascii) : is_ascii_letter c = true -> is_word c = true.
Proof. by_cases c. Qed.

Lemma digit_is_word (c : ascii) : is_ascii_digit c = true -> is_word c = true.
Proof. by_cases c. Qed.





Lemma lower_char_letter (c : ascii) :
  is_ascii_letter (lower_char c) = true -> is_ascii_lower (lower_char c) = true.
Proof. by_cases c. Qed.


End Characters.

Lemma str_eqb_eq (a b : str) : str_eqb a b = true <-> a = b.
Proof.
  revert b; induction a as [|x a IH]; intros [|y b]; simpl; split;
    try congruence; try reflexivity.
  - intros H. apply andb_true_iff in H as [Hxy Hab].
    apply Ascii.eqb_eq in Hxy. apply IH in Hab. congruence.
  - intros H. injection H as -> ->.
    rewrite Ascii.eqb_refl. simpl. now apply IH.
Qed.

Lemma str_eqb_refl (a : str) : str_eqb a a = true.
Proof. now apply str_eqb_eq. Qed.

Lemma str_mem_In (x : str) (xs : list str) : str_mem x xs = true <-> In x xs.
Proof.
  unfold str_mem. rewrite existsb_exists. split.
  - intros (y & Hy & E). apply str_eqb_eq in E. now subst.
  - intros H. exists x. split; [assumption | apply str_eqb_refl].
Qed.

Lemma py_startswith_app (p s : str) : py_startswith p (p ++ s) = true.
Proof.
  induction p as [|a p IH]; simpl; [reflexivity|].
  now rewrite Ascii.eqb_refl.
Qed.

Lemma py_startswith_prefix (p s : str) :
  py_startswith p s = true -> exists post, s = p ++ post.
Proof.
  revert s; induction p as [|a p IH]; intros s H.
  - now exists s.
  - destruct s as [|b s]; simpl in H; [discriminate|].
    apply andb_true_iff in H as [Hab Hps].
    apply Ascii.eqb_eq in Hab. subst b.
    destruct (IH _ Hps) as [post ->]. now exists post.
Qed.

(** The [in] operator decides the substring relation. *)
Lemma py_in_occurs (sub s : str) : py_in sub s = true <-> occurs_in sub s.
Proof.
  split.
  - induction s as [|c s IH]; simpl; intros H.
    + rewrite orb_false_r in H.
      destruct (py_startswith_prefix _ _ H) as [post E].
      exists [], post. exact E.
    + apply orb_true_iff in H as [H|H].
      * destruct (py_startswith_prefix _ _ H) as [post E].
        exists [], post. exact E.
      * destruct (IH H) as (pre & post & ->). now exists (c :: pre), post.
  - intros (pre & post & ->). induction pre as [|c pre IH]; simpl.
    + pose proof (py_startswith_app sub post) as H.
      destruct (sub ++ post); simpl; now rewrite H.
    + rewrite IH. apply orb_true_r.
Qed.

(* ===================================================================== *)
(** ** Splitting a text *)
(* ===================================================================== *)

Section Splitting.

Variable sep : ascii -> bool.

Lemma split_by_cons (s : str) : exists h t, split_by sep s = h :: t.
Proof.
  destruct s as [|c s]; simpl; [now eexists; eexists|].
  destruct (sep c); [now eexists; eexists|].
  destruct (split_by sep s); now eexists; eexists.
Qed.

(** The first piece is a prefix free of separators, and what follows it is
    nothing or a separator. *)
Lemma split_by_head (s h : str) (t : list str) :
  split_by sep s = h :: t ->
  Forall (fun c => sep c = false) h /\
  exists rest, s = h ++ rest /\
    (rest = [] \/ exists d rest', rest = d :: rest' /\ sep d = true).
Proof.
  revert h t; induction s as [|c s IH]; simpl; intros h t E.
  - injection E as <- <-. split; [constructor|]. exists []. auto.
  - destruct (sep c) eqn:Hc.
    + injection E as <- <-. split; [constructor|].
      exists (c :: s). split; [reflexivity|]. right. now exists c, s.
    + destruct (split_by_cons s) as (h' & t' & E').
      rewrite E' in E. injection E as <- <-.
      destruct (IH _ _ E') as (Hh & rest & -> & Hrest).
      split; [now constructor|]. now exists rest.
Qed.

(** Splitting a concatenation: the last piece of the left part and the
    first piece of the right part join. *)
Lemma split_by_app (a : str) :
  exists init la,
    split_by sep a = init ++ [la] /\
    (forall b hb tb, split_by sep b = hb :: tb ->
       split_by sep (a ++ b) = init ++ (la ++ hb) :: tb).
Proof.
  induction a as [|c a (init & la & E & IH)]; simpl.
  - exists [], []. split; [reflexivity|].
    intros b hb tb ->. reflexivity.
  - destruct (sep c) eqn:Hc.
    + exists ([] :: init), la. rewrite E. split; [reflexivity|].
      intros b hb tb Hb. now rewrite (IH _ _ _ Hb).
    + destruct init as [|i0 init]; simpl in E.
      * exists [], (c :: la). rewrite E. split; [reflexivity|].
        intros b hb tb Hb. rewrite (IH _ _ _ Hb). reflexivity.
      * exists ((c :: i0) :: init), la. rewrite E. split; [reflexivity|].
        intros b hb tb Hb. now rewrite (IH _ _ _ Hb).
Qed.

(** The last piece of a text that ends with a separator is empty; the last
    piece of a text that ends with another character ends with it. *)
Lemma split_by_last (a : str) (c : ascii) (init : list str) (la : str) :
  split_by sep (a ++ [c]) = init ++ [la] ->
  if sep c then la = [] else exists la', la = la' ++ [c].
Proof.
  intros E. destruct (split_by_app a) as (init' & la' & _ & Happ).
  destruct (sep c) eqn:Hc.
  - rewrite (Happ [c] [] [[]]) in E by (simpl; now rewrite Hc).
    change (init' ++ (la' ++ []) :: [[]]) with (init' ++ [la' ++ []] ++ [[]]) in E.
    rewrite app_assoc in E. apply app_inj_tail in E. now destruct E.
  - rewrite (Happ [c] [c] []) in E by (simpl; now rewrite Hc).
    apply app_inj_tail in E. destruct E as [_ <-]. now exists la'.
Qed.

End Splitting.

(* ===================================================================== *)
(** ** The scanner and the word runs of a text *)
(* ===================================================================== *)

Section Scanner.

Lemma last_cons_default (A : Type) (l : list A) (x d : A) :
  last (x :: l) d = last l x.
Proof.
  revert x d; induction l as [|y l IH]; intros x d; [reflexivity|].
  change (last (x :: y :: l) d) with (last (y :: l) d).
  now rewrite !IH.
Qed.

Lemma prev_after_cons (prev : option ascii) (x : ascii) (a : str) :
  prev_after prev (x :: a) = prev_after (Some x) a.
Proof. unfold prev_after. simpl map. apply last_cons_default. Qed.

Lemma prev_after_word (prev : option ascii) (a : str) :
  word_opt prev = true -> Forall (fun c => is_word c = true) a ->
  word_opt (prev_after prev a) = true.
Proof.
  revert prev; induction a as [|x a IH]; intros prev Hp Ha.
  - exact Hp.
  - rewrite prev_after_cons. inversion Ha; subst. now apply IH.
Qed.

Lemma backtrack_S (k : nat) (s : str) :
  backtrack (S k) s =
  if 3 <=? S k then
    if at_boundary (prev_after None (firstn (S k) s)) (hd_error (skipn (S k) s))
    then Some (firstn (S k) s)
    else backtrack k s
  else None.
Proof. reflexivity. Qed.

Lemma scan_0 (prev : option ascii) (c : ascii) (s : str) :
  scan prev 0 (c :: s) =
  match match_here prev (c :: s) with
  | Some w => w :: scan (Some c) (length w - 1) s
  | None => scan (Some c) 0 s
  end.
Proof. reflexivity. Qed.

(** Passing over the rest of a match. *)
Lemma scan_skip (a : str) (prev : option ascii) (rest : str) :
  scan prev (length a) (a ++ rest) = scan (prev_after prev a) 0 rest.
Proof.
  revert prev; induction a as [|x a IH]; intros prev.
  - reflexivity.
  - rewrite prev_after_cons. simpl. apply IH.
Qed.

(** No attempt succeeds inside a run of word characters. *)
Lemma scan_inside_word (a : str) (prev : option ascii) (rest : str) :
  word_opt prev = true -> Forall (fun c => is_word c = true) a ->
  scan prev 0 (a ++ rest) = scan (prev_after prev a) 0 rest.
Proof.
  revert prev; induction a as [|x a IH]; intros prev Hp Ha.
  - reflexivity.
  - inversion Ha as [|? ? Hx Ha']; subst.
    rewrite prev_after_cons. simpl app. rewrite scan_0.
    unfold match_here, at_boundary. simpl hd_error. simpl word_opt at 2.
    rewrite Hp, Hx. simpl. apply IH; [exact Hx | exact Ha'].
Qed.

Lemma letters_prefix_all (run rest : str) :
  forallb is_ascii_letter run = true ->
  word_opt (hd_error rest) = false ->
  letters_prefix (run ++ rest) = length run.
Proof.
  intros Hrun Hrest. induction run as [|x run IH]; simpl in *.
  - destruct rest as [|d rest]; [reflexivity|]. simpl in *.
    destruct (is_ascii_letter d) eqn:Hd; [|reflexivity].
    apply letter_is_word in Hd. congruence.
  - apply andb_true_iff in Hrun as [Hx Hrun]. rewrite Hx. f_equal. now apply IH.
Qed.

Lemma letters_prefix_short (run rest : str) :
  forallb is_ascii_letter run = false ->
  letters_prefix (run ++ rest) < length run.
Proof.
  induction run as [|x run IH]; simpl; [discriminate|].
  destruct (is_ascii_letter x); simpl; intros H; [|lia].
  apply IH in H. lia.
Qed.

(** The closing [\b] fails at every position inside a run of word
    characters. *)
Lemma backtrack_inside (k : nat) (run rest : str) :
  Forall (fun c => is_word c = true) run -> k < length run ->
  backtrack k (run ++ rest) = None.
Proof.
  intros Hrun. induction k as [|k IH]; intros Hk; [reflexivity|].
  rewrite backtrack_S. destruct (3 <=? S k); [|reflexivity].
  rewrite IH by lia.
  assert (Hf : firstn (S k) (run ++ rest) = firstn (S k) run).
  { rewrite firstn_app. replace (S k - length run) with 0 by lia.
    simpl firstn at 2. apply app_nil_r. }
  assert (Hs : exists x tl, skipn (S k) (run ++ rest) = x :: tl /\ is_word x = true).
  { rewrite skipn_app. replace (S k - length run) with 0 by lia. simpl skipn at 2.
    destruct (skipn (S k) run) as [|x tl] eqn:E.
    - apply (f_equal (@length ascii)) in E. rewrite length_skipn in E.
      simpl in E. lia.
    - exists x, (tl ++ rest). split; [reflexivity|].
      assert (Hin : In x (skipn (S k) run)) by (rewrite E; now left).
      rewrite <- (firstn_skipn (S k) run) in Hrun.
      apply Forall_app in Hrun as [_ Hrun].
      rewrite Forall_forall in Hrun. now apply Hrun. }
  destruct Hs as (x & tl & -> & Hx). rewrite Hf.
  unfold at_boundary. simpl hd_error. simpl word_opt at 2. rewrite Hx.
  destruct run as [|r run]; [simpl in Hk; lia|].
  rewrite firstn_cons, prev_after_cons.
  inversion Hrun as [|? ? Hr Hrun']; subst.
  rewrite prev_after_word.
  - reflexivity.
  - exact Hr.
  - rewrite <- (firstn_skipn k run) in Hrun'. now apply Forall_app in Hrun'.
Qed.

(** An attempt at the start of a maximal run of word characters takes the
    whole run or nothing. *)
Lemma match_here_run (prev : option ascii) (c : ascii) (h rest : str) :
  word_opt prev = false ->
  Forall (fun c => is_word c = true) (c :: h) ->
  word_opt (hd_error rest) = false ->
  match_here prev ((c :: h) ++ rest) =
  if keyword_shape (c :: h) then Some (c :: h) else None.
Proof.
  intros Hp Hrun Hrest. set (run := c :: h) in *.
  unfold match_here, at_boundary. rewrite Hp.
  inversion Hrun as [|? ? Hc Hh]; subst. simpl hd_error. simpl word_opt.
  rewrite Hc. simpl xorb. cbv iota.
  unfold keyword_shape.
  destruct (forallb is_ascii_letter run) eqn:Hall.
  - rewrite letters_prefix_all by assumption.
    rewrite andb_true_r. unfold run at 1. simpl length. rewrite backtrack_S.
    change (S (length h)) with (length run).
    destruct (3 <=? length run); [|reflexivity].
    rewrite firstn_app, Nat.sub_diag, firstn_all. simpl firstn. rewrite app_nil_r.
    rewrite skipn_app, Nat.sub_diag, skipn_all. simpl.
    unfold at_boundary. rewrite Hrest.
    unfold run at 1. rewrite prev_after_cons, prev_after_word; auto.
  - rewrite andb_false_r. apply backtrack_inside; [exact Hrun|].
    now apply letters_prefix_short.
Qed.

Lemma match_here_nonword (prev : option ascii) (c : ascii) (s : str) :
  is_word c = false -> match_here prev (c :: s) = None.
Proof.
  intros Hc. unfold match_here. simpl letters_prefix.
  destruct (is_ascii_letter c) eqn:Hl.
  - apply letter_is_word in Hl. congruence.
  - simpl. now destruct (at_boundary prev (Some c)).
Qed.

(** The matches of the pattern are the maximal runs of word characters
    that consist of three or more letters.  A run that continues the
    character before the text is not the start of a match. *)
Lemma scan_word_runs (s : str) (prev : option ascii) :
  scan prev 0 s =
  filter keyword_shape
    (if word_opt prev then tl (word_runs s) else word_runs s).
Proof.
  revert prev; induction s as [|c s IH]; intros prev.
  - simpl. now destruct (word_opt prev).
  - rewrite scan_0. unfold word_runs in *. simpl split_by.
    destruct (is_word c) eqn:Hc; simpl negb; cbv iota.
    + destruct (split_by_cons (fun c => negb (is_word c)) s) as (h & t & E).
      destruct (split_by_head _ s E) as (Hh & rest & Es & Hrest).
      assert (Hh' : Forall (fun c => is_word c = true) h).
      { eapply Forall_impl; [|exact Hh]. simpl. intros a Ha.
        now apply negb_false_iff in Ha. }
      assert (Hrest' : word_opt (hd_error rest) = false).
      { destruct Hrest as [->|(d & r & -> & Hd)]; [reflexivity|].
        simpl. now apply negb_true_iff in Hd. }
      pose proof (IH (Some c)) as IHc. simpl word_opt in IHc.
      rewrite Hc, E in IHc. simpl tl in IHc. rewrite E.
      destruct (word_opt prev) eqn:Hp.
      * unfold match_here, at_boundary. rewrite Hp. simpl hd_error.
        simpl word_opt. rewrite Hc. simpl. exact IHc.
      * rewrite Es at 1. change (c :: h ++ rest) with ((c :: h) ++ rest).
        rewrite match_here_run by (auto; now constructor).
        simpl filter. destruct (keyword_shape (c :: h)).
        -- f_equal. replace (length (c :: h) - 1) with (length h) by (simpl; lia).
           rewrite Es at 1. rewrite scan_skip.
           rewrite <- scan_inside_word by (auto; exact Hc).
           rewrite <- Es. exact IHc.
        -- exact IHc.
    + rewrite match_here_nonword by exact Hc.
      rewrite (IH (Some c)). simpl word_opt. rewrite Hc.
      now destruct (word_opt prev).
Qed.

End Scanner.

(* ===================================================================== *)
(** ** The keyword extractor *)
(* ===================================================================== *)

Section Extractor.

Lemma split_by_chars (sep : ascii -> bool) (s w : str) (c : ascii) :
  In w (split_by sep s) -> In c w -> In c s.
Proof.
  revert w; induction s as [|x s IH]; simpl; intros w Hw Hc.
  - destruct Hw as [<-|[]]. exact Hc.
  - destruct (sep x).
    + destruct Hw as [<-|Hw]; [destruct Hc|]. right. eapply IH; eauto.
    + destruct (split_by_cons sep s) as (h & t & E). rewrite E in *.
      destruct Hw as [<-|Hw].
      * destruct Hc as [->|Hc]; [now left|]. right.
        apply (IH h); [now left | exact Hc].
      * right. apply (IH w); [now right | exact Hc].
Qed.




Lemma split_by_single (sep : ascii -> bool) (r : str) :
  Forall (fun c => sep c = false) r -> split_by sep r = [r].
Proof.
  induction 1 as [|c r Hc _ IH]; simpl; [reflexivity|]. now rewrite Hc, IH.
Qed.

(** The keywords of a text are its maximal runs of word characters, lower
    case, that consist of three or more letters and are not stop words. *)
Lemma extract_keywords_runs (text : str) :
  extract_keywords text =
  filter (fun word => negb (str_mem word stop_words) && (2 <? length word))
    (filter keyword_shape (word_runs (py_lower text))).
Proof.
  unfold extract_keywords, findall_keyword_pattern.
  now rewrite scan_word_runs.
Qed.


(** Two texts side by side, the first ending and the second starting
    outside a keyword: the runs are those of the first, then those of the
    second, the two pieces at the seam joined around [mid]. *)
Lemma word_runs_seam (a mid b : str) :
  Forall (fun c => is_word c = true) mid ->
  exists init la hb tb,
    word_runs a = init ++ [la] /\ word_runs b = hb :: tb /\
    word_runs (a ++ mid ++ b) = init ++ (la ++ mid ++ hb) :: tb.
Proof.
  intros Hmid. unfold word_runs.
  destruct (split_by_app (fun c => negb (is_word c)) a) as (init & la & Ea & Happ).
  destruct (split_by_cons (fun c => negb (is_word c)) b) as (hb & tb & Eb).
  exists init, la, hb, tb. split; [exact Ea|]. split; [exact Eb|].
  apply Happ.
  destruct (split_by_app (fun c => negb (is_word c)) mid) as (im & lm & Em & Hm).
  rewrite split_by_single in Em.
  - change [mid] with ([] ++ [mid]) in Em. apply app_inj_tail in Em.
    destruct Em as [<- <-]. now rewrite (Hm _ _ _ Eb).
  - eapply Forall_impl; [|exact Hmid]. intros c Hc. cbv beta.
    now rewrite Hc.
Qed.



End Extractor.

(** The tokens are made of three or more lower-case letters and are not
    stop words. *)
Lemma extract_keywords_shape (text : str) :
  Forall (fun w => 3 <= length w
                   /\ Forall (fun c => is_ascii_lower c = true) w
                   /\ ~ In w stop_words)
         (extract_keywords text).
Proof.
  rewrite extract_keywords_runs. apply Forall_forall. intros w Hw.
  apply filter_In in Hw as [Hw Hkeep]. apply filter_In in Hw as [Hw Hshape].
  apply andb_true_iff in Hkeep as [Hstop _].
  apply andb_true_iff in Hshape as [Hlen Hall].
  split; [now apply Nat.leb_le in Hlen|]. split.
  - apply Forall_forall. intros c Hc.
    rewrite forallb_forall in Hall. specialize (Hall c Hc).
    pose proof (split_by_chars _ _ _ _ Hw Hc) as Hin.
    unfold py_lower in Hin. apply in_map_iff in Hin as (c0 & <- & _).
    now apply lower_char_letter.
  - intros Hin. apply str_mem_In in Hin. now rewrite Hin in Hstop.
Qed.




(* ===================================================================== *)
(** ** Classification *)
(* ===================================================================== *)

Section Classification.

Lemma any_in_occurs (words : list str) (text : str) :
  any_in words text = true <-> exists w, In w words /\ occurs_in w text.
Proof.
  unfold any_in. rewrite existsb_exists.
  split; intros (w & Hw & H); exists w; (split; [exact Hw|]);
    now apply py_in_occurs.
Qed.

Lemma any_in_none (words : list str) (text : str) :
  any_in words text = false <-> forall w, In w words -> ~ occurs_in w text.
Proof.
  split.
  - intros H w Hw Hocc.
    assert (any_in words text = true) by (apply any_in_occurs; eauto).
    congruence.
  - intros H. destruct (any_in words text) eqn:E; [|reflexivity].
    apply any_in_occurs in E as (w & Hw & Hocc). now destruct (H w Hw).
Qed.

Lemma fallback_category_valid (m : Message) :
  In (fst (fallback_classification m)) categories.
Proof.
  unfold fallback_classification, categories. cbn [fst].
  destruct (any_in product_support_triggers _); [now left|].
  destruct (any_in billing_triggers _); [right; now left | right; right; now left].
Qed.

Lemma fallback_summary_nonempty (m : Message) :
  snd (fallback_classification m) <> [].
Proof. discriminate. Qed.

Lemma validate_category_valid (category : option str) :
  In (validate_category category) categories.
Proof.
  destruct category as [c|]; unfold validate_category.
  - destruct (str_mem c categories) eqn:E.
    + now apply str_mem_In.
    + right; right; now left.
  - right; right; now left.
Qed.

Lemma validate_summary_nonempty (m : Message) (summary : option str) :
  validate_summary m summary <> [].
Proof. destruct summary as [[|c s]|]; discriminate. Qed.

Lemma validated_result_eq (m : Message) (reply : str) :
  validated_result m reply =
  (validate_category (fst (parse_response (py_strip reply))),
   validate_summary m (snd (parse_response (py_strip reply)))).
Proof. unfold validated_result. now destruct (parse_response _). Qed.

(** The result of the method: the validated reply when the service
    answers, the fallback when it raises. *)
Lemma classify_cases (model : Model) (m : Message) :
  (exists reply, model (build_prompt m) = Ok reply /\
     classify_and_summarize_email model m = Ok (validated_result m reply))
  \/ (exists e, model (build_prompt m) = Raise e /\
     classify_and_summarize_email model m = Ok (fallback_classification m)).
Proof.
  unfold classify_and_summarize_email.
  destruct (model (build_prompt m)) as [reply|e] eqn:E.
  - left. now exists reply.
  - right. now exists e.
Qed.

Lemma classify_valid (model : Model) (m : Message) :
  exists category summary,
    classify_and_summarize_email model m = Ok (category, summary)
    /\ In category categories /\ summary <> [].
Proof.
  destruct (classify_cases model m) as [(reply & _ & ->)|(e & _ & ->)].
  - rewrite validated_result_eq. eexists; eexists. split; [reflexivity|].
    split; [apply validate_category_valid | apply validate_summary_nonempty].
  - destruct (fallback_classification m) as [c s] eqn:E.
    exists c, s. split; [reflexivity|]. split.
    + change c with (fst (c, s)). rewrite <- E. apply fallback_category_valid.
    + change s with (snd (c, s)). rewrite <- E. apply fallback_summary_nonempty.
Qed.

Lemma summaries_differ (m : Message) :
  default_summary m <> snd (fallback_classification m).
Proof.
  unfold default_summary, fallback_classification. cbn [snd]. intros E.
  apply app_inv_head in E. apply app_inv_head in E. discriminate E.
Qed.

End Classification.

(** C1 - [classify_and_summarize_email] always returns, and returns one
    pair: a category among the three of [self.categories] and a summary
    that is not empty.  The pair is the validated reply when the service
    answers and the result of [fallback_classification] when the call
    raises; no exception leaves the method. *)
Theorem classify_and_summarize_email_total (model : Model) (m : Message) :
  exists category summary,
    classify_and_summarize_email model m = Ok (category, summary)
    /\ In category categories
    /\ summary <> []
    /\ ((exists reply, model (build_prompt m) = Ok reply
                       /\ (category, summary) = validated_result m reply)
        \/ (exists e, model (build_prompt m) = Raise e
                      /\ (category, summary) = fallback_classification m)).
Proof.
  destruct (classify_valid model m) as (category & summary & E & Hc & Hs).
  exists category, summary. repeat (split; [assumption|]).
  destruct (classify_cases model m) as [(reply & Hm & E')|(e & Hm & E')];
    rewrite E in E'.
  - left. exists reply. split; [exact Hm | congruence].
  - right. exists e. split; [exact Hm | congruence].
Qed.

(** C3 - [fallback_classification] is a total function of the subject, the
    sender and the body.  On the lower-cased text "subject body" it answers
    Product Support when one of its triggers occurs, otherwise Billing when
    one of the billing triggers occurs, otherwise General Inquiry; the
    summary is "Email from <sender> - <first 30 characters of the
    subject>...". *)
Theorem fallback_classification_rule (m : Message) :
  let text := py_lower (subject m ++ lit " " ++ body m) in
  let result := fallback_classification m in
  (((exists w, In w product_support_triggers /\ occurs_in w text)
    /\ fst result = lit "Product Support")
   \/ ((forall w, In w product_support_triggers -> ~ occurs_in w text)
       /\ (exists w, In w billing_triggers /\ occurs_in w text)
       /\ fst result = lit "Billing")
   \/ ((forall w, In w product_support_triggers -> ~ occurs_in w text)
       /\ (forall w, In w billing_triggers -> ~ occurs_in w text)
       /\ fst result = lit "General Inquiry"))
  /\ snd result
     = lit "Email from " ++ sender m ++ lit " - " ++ firstn 30 (subject m) ++ lit "..."
  /\ (forall m', subject m' = subject m -> sender m' = sender m ->
                 body m' = body m ->
                 fallback_classification m' = result).
Proof.
  intros text result. split; [|split].
  - unfold result, fallback_classification. fold text. cbn [fst].
    destruct (any_in product_support_triggers text) eqn:Hps.
    + left. split; [exact (proj1 (@any_in_occurs _ _) Hps) | reflexivity].
    + right. pose proof (proj1 (@any_in_none _ _) Hps) as Hps'.
      destruct (any_in billing_triggers text) eqn:Hb.
      * left. split; [exact Hps'|].
        split; [exact (proj1 (@any_in_occurs _ _) Hb) | reflexivity].
      * right. split; [exact Hps'|].
        split; [exact (proj1 (@any_in_none _ _) Hb) | reflexivity].
  - reflexivity.
  - intros m' Hs Hf Hb. unfold result, fallback_classification.
    now rewrite Hs, Hf, Hb.
Qed.

(** C9 - the triggers are matched as substrings: whenever a Product Support
    trigger occurs anywhere in the lower-cased text "subject body", inside
    a longer word or not, the fallback answers Product Support. *)
Theorem fallback_matches_substrings (m : Message) (w : str) :
  In w product_support_triggers ->
  occurs_in w (py_lower (subject m ++ lit " " ++ body m)) ->
  fst (fallback_classification m) = lit "Product Support".
Proof.
  intros Hw Hocc. unfold fallback_classification. cbn [fst].
  replace (any_in product_support_triggers _) with true; [reflexivity|].
  symmetry. apply any_in_occurs. now exists w.
Qed.

(** "terror" holds "error", and no keyword of the text is "error". *)
Lemma fallback_matches_substrings_witness :
  fst (fallback_classification Examples.terror_novel) = lit "Product Support"
  /\ ~ In (lit "error")
          (extract_keywords
             (subject Examples.terror_novel ++ lit " " ++ body Examples.terror_novel)).
Proof.
  split.
  - apply (@fallback_matches_substrings Examples.terror_novel (lit "error")).
    + right; left; reflexivity.
    + exists (lit "reign of t"), (lit " a historical novel"). reflexivity.
  - vm_compute. intros H.
    repeat (destruct H as [H|H]; [discriminate H|]). exact H.
Defined.

(** C7 - when the service answers and the category read from the reply is
    missing or is not one of the three, the method returns General Inquiry
    together with the summary read from the reply (the synthesized one when
    the reply holds none); the fallback classifier is not consulted. *)
Theorem invalid_category_replaced (model : Model) (m : Message) (reply : str) :
  model (build_prompt m) = Ok reply ->
  (forall c, fst (parse_response (py_strip reply)) = Some c -> ~ In c categories) ->
  exists summary,
    classify_and_summarize_email model m = Ok (lit "General Inquiry", summary)
    /\ summary = validate_summary m (snd (parse_response (py_strip reply)))
    /\ (forall s, snd (parse_response (py_strip reply)) = Some s -> s <> [] ->
                  summary = s).
Proof.
  intros Hm Hc. eexists. split; [|split; [reflexivity|]].
  - unfold classify_and_summarize_email. rewrite Hm. cbn [bind try_except].
    rewrite validated_result_eq. f_equal. f_equal.
    destruct (fst (parse_response (py_strip reply))) as [c|]; [|reflexivity].
    unfold validate_category.
    destruct (str_mem c categories) eqn:E; [|reflexivity].
    apply str_mem_In in E. now destruct (Hc c eq_refl).
  - intros s -> Hs. destruct s; [now destruct Hs | reflexivity].
Qed.

(** The reply names a category outside the three; the fallback would have
    answered Billing. *)
Lemma invalid_category_replaced_witness :
  (exists summary,
     classify_and_summarize_email
       (Examples.ai_says "Category: Sales
Summary: Customer asks about an invoice.") Examples.invoice_question
     = Ok (lit "General Inquiry", summary)
     /\ summary = lit "Customer asks about an invoice.")
  /\ fst (fallback_classification Examples.invoice_question) = lit "Billing".
Proof.
  split; [|reflexivity].
  destruct (@invalid_category_replaced
              (Examples.ai_says "Category: Sales
Summary: Customer asks about an invoice.") Examples.invoice_question
              (lit "Category: Sales
Summary: Customer asks about an invoice."))
    as (summary & E & Hs & _).
  - reflexivity.
  - intros c Hc. vm_compute in Hc. injection Hc as <-.
    intros H. repeat (destruct H as [H|H]; [discriminate H|]). exact H.
  - exists summary. split; [exact E | exact Hs].
Defined.

(** C8, as the code has it - when no summary is read from the reply, the
    method synthesizes "Email from <sender> regarding <subject>", the whole
    subject and no ellipsis; this is never the summary of the fallback
    classifier, "Email from <sender> - <first 30 characters>...". *)
Theorem synthesized_summary_scheme (m : Message) (reply : str) :
  falsy (snd (parse_response (py_strip reply))) = true ->
  snd (validated_result m reply)
  = lit "Email from " ++ sender m ++ lit " regarding " ++ subject m
  /\ snd (validated_result m reply) <> snd (fallback_classification m).
Proof.
  intros H. rewrite validated_result_eq. cbn [snd].
  assert (E : validate_summary m (snd (parse_response (py_strip reply)))
              = default_summary m).
  { destruct (snd (parse_response (py_strip reply))) as [[|c s]|];
      try reflexivity. discriminate H. }
  rewrite E. split; [reflexivity | apply summaries_differ].
Qed.

Lemma synthesized_summary_scheme_witness :
  snd (validated_result Examples.invoice_question (lit "Category: Billing"))
  = lit "Email from billing.inquiry@company.com regarding Invoice question"
  /\ snd (validated_result Examples.invoice_question (lit "Category: Billing"))
     <> snd (fallback_classification Examples.invoice_question).
Proof.
  apply (@synthesized_summary_scheme Examples.invoice_question (lit "Category: Billing")).
  reflexivity.
Defined.

(** C8, as the specification words it, fails: for this message and a reply
    without a summary line the two summaries differ. *)
Lemma synthesized_summary_differs :
  snd (parse_response (py_strip (lit "Category: Billing"))) = None
  /\ snd (validated_result Examples.invoice_question (lit "Category: Billing"))
     = lit "Email from billing.inquiry@company.com regarding Invoice question"
  /\ snd (fallback_classification Examples.invoice_question)
     = lit "Email from billing.inquiry@company.com - Invoice question..."
  /\ snd (validated_result Examples.invoice_question (lit "Category: Billing"))
     <> snd (fallback_classification Examples.invoice_question).
Proof.
  split; [reflexivity|]. split; [reflexivity|]. split; [reflexivity|].
  vm_compute. discriminate.
Qed.

(* ===================================================================== *)
(** ** Analytics *)
(* ===================================================================== *)

Section Analytics.

Lemma dict_get_set (V : Type) (c k : str) (v : V) (d : dict V) :
  dict_get c (dict_set k v d) = if str_eqb c k then Some v else dict_get c d.
Proof.
  induction d as [|[k' v'] d IH]; simpl; [reflexivity|].
  destruct (str_eqb k k') eqn:Ek; simpl.
  - apply str_eqb_eq in Ek. subst k'. now destruct (str_eqb c k).
  - rewrite IH. destruct (str_eqb c k') eqn:Ec; [|reflexivity].
    destruct (str_eqb c k) eqn:Ec'; [|reflexivity].
    apply str_eqb_eq in Ec, Ec'. subst. now rewrite str_eqb_refl in Ek.
Qed.

(** Every category keeps its entry in [self.category_keywords]. *)
Lemma reachable_keys (self : System) :
  reachable self ->
  forall c, In c categories ->
  exists keywords, dict_get c (category_keywords self) = Some keywords.
Proof.
  induction 1 as [|self m category summary self' _ IH Hupd]; intros c Hc.
  - destruct Hc as [<-|[<-|[<-|[]]]]; eexists; reflexivity.
  - unfold update_analytics, getitem in Hupd.
    destruct (dict_get category (category_keywords self)) as [stored|];
      [|discriminate Hupd].
    injection Hupd as <-. simpl category_keywords. rewrite dict_get_set.
    destruct (str_eqb c category); [eexists; reflexivity | now apply IH].
Qed.

Lemma update_analytics_ok (self : System) (m : Message) (category summary : str) :
  reachable self -> In category categories ->
  exists self',
    update_analytics self m category summary = Ok self'
    /\ processed_emails self'
       = processed_emails self
           ++ [make_record m category summary
                 (extract_keywords (subject m ++ lit " " ++ body m))].
Proof.
  intros Hr Hc. destruct (reachable_keys Hr Hc) as (stored & E).
  unfold update_analytics, getitem. rewrite E. eexists. split; reflexivity.
Qed.

(** Whatever the webhook does, the method returns a boolean. *)
Lemma send_slack_notification_returns (config : Config) (post : Http)
    (m : Message) (category summary : str) :
  exists sent, send_slack_notification config post m category summary = Ok sent.
Proof.
  unfold send_slack_notification.
  destruct (slack_channels config) as [channels|]; cbn [bind try_except].
  - match goal with |- context [post ?u ?p] => destruct (post u p) as [code|e] end;
      cbn [bind try_except].
    + destruct (code =? 200); eexists; reflexivity.
    + eexists; reflexivity.
  - eexists; reflexivity.
Qed.

(** The loop records every message of the batch, in order. *)
Lemma triage_loop_records (config : Config) (ai : nat -> Model) (post : nat -> Http)
    (emails : list Message) :
  forall (i : nat) (self : System), reachable self ->
  exists self' records,
    triage_loop config ai post i self emails = Ok self'
    /\ reachable self'
    /\ processed_emails self' = processed_emails self ++ records
    /\ map record_source records = map message_source emails
    /\ Forall (fun r => In (r_category r) categories) records.
Proof.
  induction emails as [|m emails IH]; intros i self Hr.
  - exists self, []. simpl. rewrite app_nil_r. repeat split; auto.
  - cbn [triage_loop].
    destruct (classify_valid (ai i) m) as (category & summary & -> & Hc & _).
    cbn [bind].
    destruct (send_slack_notification_returns config (post i) m category summary)
      as (sent & ->).
    cbn [bind].
    destruct (update_analytics_ok m summary Hr Hc) as (self1 & Hupd & Hlog).
    rewrite Hupd. cbn [bind].
    destruct (IH (S i) self1) as (self' & records & -> & Hr' & Hlog' & Hsrc & Hcat).
    { eapply reachable_update; eauto. }
    eexists; eexists. split; [reflexivity|]. split; [exact Hr'|].
    split; [|split].
    + rewrite Hlog', Hlog, <- app_assoc. reflexivity.
    + simpl. now rewrite Hsrc.
    + constructor; [exact Hc | exact Hcat].
Qed.

Lemma counter_add_get (k k' : str) (c : dict nat) :
  dict_get k (counter_add k' c)
  = if str_eqb k k'
    then Some (S (match dict_get k' c with Some n => n | None => 0 end))
    else dict_get k c.
Proof.
  induction c as [|[k0 n0] c IH]; cbn [counter_add dict_get].
  - now destruct (str_eqb k k').
  - destruct (str_eqb k' k0) eqn:E0; cbn [dict_get].
    + apply str_eqb_eq in E0. subst k0. now destruct (str_eqb k k').
    + rewrite IH. destruct (str_eqb k k0) eqn:E1; [|reflexivity].
      destruct (str_eqb k k') eqn:E2; [|reflexivity].
      apply str_eqb_eq in E1, E2. subst. now rewrite str_eqb_refl in E0.
Qed.

Lemma counter_add_keys (k : str) (c : dict nat) :
  map fst (counter_add k c)
  = if str_mem k (map fst c) then map fst c else map fst c ++ [k].
Proof.
  unfold str_mem. induction c as [|[k0 n0] c IH]; cbn [counter_add map fst existsb].
  - reflexivity.
  - destruct (str_eqb k k0); cbn [map fst orb]; [reflexivity|].
    rewrite IH. now destruct (existsb (str_eqb k) (map fst c)).
Qed.

Lemma dict_get_In (V : Type) (k : str) (v : V) (d : dict V) :
  NoDup (map fst d) -> In (k, v) d -> dict_get k d = Some v.
Proof.
  induction d as [|[k0 v0] d IH]; cbn [map fst dict_get]; intros Hnd Hin.
  - destruct Hin.
  - inversion Hnd as [|? ? Hk0 Hd]; subst. destruct Hin as [E|Hin].
    + injection E as -> ->. now rewrite str_eqb_refl.
    + destruct (str_eqb k k0) eqn:E; [|now apply IH].
      apply str_eqb_eq in E. subst k0. destruct Hk0.
      change k with (fst (k, v)). now apply in_map.
Qed.

(** The table built from [l] on top of a table [c]: counts add up, and new
    keys go last in the order they are first met. *)
Lemma counter_fold (l : list str) :
  forall c : dict nat, NoDup (map fst c) ->
  let c' := fold_left (fun c k => counter_add k c) l c in
  NoDup (map fst c')
  /\ map fst c'
     = fold_left (fun seen k => if str_mem k seen then seen else seen ++ [k])
         l (map fst c)
  /\ forall k, dict_get k c'
     = match dict_get k c, occurrences k l with
       | None, 0 => None
       | None, S n => Some (S n)
       | Some m, n => Some (m + n)
       end.
Proof.
  unfold occurrences. induction l as [|x l IH]; intros c Hnd; cbn [fold_left].
  - split; [exact Hnd|]. split; [reflexivity|]. intros k. cbn [filter length].
    destruct (dict_get k c); [f_equal; lia | reflexivity].
  - assert (Hnd' : NoDup (map fst (counter_add x c))).
    { rewrite counter_add_keys. destruct (str_mem x (map fst c)) eqn:E; [exact Hnd|].
      apply NoDup_app; [exact Hnd | repeat constructor; intros [] |].
      intros a Ha [<-|[]]. apply str_mem_In in Ha. congruence. }
    destruct (IH _ Hnd') as (H1 & H2 & H3). split; [exact H1|]. split.
    + rewrite H2, counter_add_keys. reflexivity.
    + intros k. rewrite H3, counter_add_get. cbn [filter].
      destruct (str_eqb k x) eqn:E.
      * apply str_eqb_eq in E. subst x. cbn [length].
        destruct (dict_get k c); f_equal; lia.
      * reflexivity.
Qed.

(** The frequency table lists the distinct keywords in the order they are
    first met, each with the number of its occurrences. *)
Lemma Counter_table (l : list str) :
  map fst (Counter l) = first_seen l
  /\ forall k n, In (k, n) (Counter l) -> n = occurrences k l /\ 1 <= n.
Proof.
  destruct (@counter_fold l [] (NoDup_nil _)) as (Hnd & Hkeys & Hget).
  split; [exact Hkeys|]. intros k n Hin.
  apply (dict_get_In _ _ _ Hnd) in Hin. unfold Counter in Hin.
  rewrite Hget in Hin. cbn [dict_get] in Hin.
  destruct (occurrences k l); [discriminate Hin|]. injection Hin as <-. lia.
Qed.

Lemma with_count_In (p : str * nat) (l : list (str * nat)) :
  In p l <-> In p (with_count (snd p) l).
Proof.
  unfold with_count. rewrite filter_In, Nat.eqb_refl. tauto.
Qed.

Lemma insert_desc_Forall (P : str * nat -> Prop) (x : str * nat) (l : list (str * nat)) :
  P x -> Forall P l -> Forall P (insert_desc x l).
Proof.
  intros Hx. induction 1 as [|y l Hy Hl IH]; simpl.
  - now constructor.
  - destruct (snd x <? snd y); repeat constructor; auto.
Qed.

Lemma insert_desc_descending (x : str * nat) (l : list (str * nat)) :
  descending l -> descending (insert_desc x l).
Proof.
  unfold descending. induction 1 as [|y l Hl IH Hy]; simpl.
  - repeat constructor.
  - destruct (snd x <? snd y) eqn:E.
    + apply Nat.ltb_lt in E. constructor; [exact IH|].
      apply insert_desc_Forall; [lia | exact Hy].
    + apply Nat.ltb_ge in E. constructor; [now constructor|].
      constructor; [exact E|].
      eapply Forall_impl; [|exact Hy]. simpl. intros z Hz. lia.
Qed.

(** The sort is stable: items of equal count keep their order. *)
Lemma insert_desc_stable (n : nat) (x : str * nat) (l : list (str * nat)) :
  with_count n (insert_desc x l) = with_count n (x :: l).
Proof.
  unfold with_count. induction l as [|y l IH]; [reflexivity|].
  cbn [insert_desc]. destruct (snd x <? snd y) eqn:E; [|reflexivity].
  apply Nat.ltb_lt in E. cbn [filter] in *. rewrite IH.
  destruct (snd y =? n) eqn:Ey; destruct (snd x =? n) eqn:Ex; try reflexivity.
  apply Nat.eqb_eq in Ey, Ex. lia.
Qed.

Lemma sorted_desc_descending (l : list (str * nat)) : descending (sorted_desc l).
Proof.
  induction l as [|x l IH]; simpl.
  - constructor.
  - now apply insert_desc_descending.
Qed.

Lemma sorted_desc_stable (n : nat) (l : list (str * nat)) :
  with_count n (sorted_desc l) = with_count n l.
Proof.
  induction l as [|x l IH]; [reflexivity|].
  cbn [sorted_desc fold_right]. fold (sorted_desc l).
  rewrite insert_desc_stable. unfold with_count in *. cbn [filter].
  now rewrite IH.
Qed.

Lemma top_keywords_eq (self : System) (category : str) (keywords : list str) :
  top_keywords (category_analytics self category keywords)
  = most_common 5 (Counter keywords).
Proof. now destruct keywords. Qed.

(** A category with keywords reports the number of its records. *)
Lemma total_emails_with_keywords (self : System) (category : str)
    (keywords : list str) :
  keywords <> [] ->
  total_emails (category_analytics self category keywords)
  = count_category self category.
Proof. destruct keywords; [now intros [] | reflexivity]. Qed.

End Analytics.

(** C4 - whatever the webhook does for each message (accept, refuse, or
    raise), the loop of [run_triage_workflow] ends normally and appends one
    record per message of the batch to [self.processed_emails], in the order
    of the batch; each record carries one of the three categories. *)
Theorem dispatch_failure_keeps_recording (config : Config) (ai : nat -> Model)
    (post : nat -> Http) (self : System) (emails : list Message) :
  reachable self ->
  exists self' records,
    run_triage_workflow config ai post self emails = Ok self'
    /\ processed_emails self' = processed_emails self ++ records
    /\ map record_source records = map message_source emails
    /\ Forall (fun r => In (r_category r) categories) records.
Proof.
  intros Hr.
  destruct (triage_loop_records config ai post emails 0 Hr)
    as (self' & records & E & _ & Hlog & Hsrc & Hcat).
  exists self', records. split; [|auto].
  destruct emails; [|exact E]. simpl in *. exact E.
Qed.

(** Five messages, the webhook failing for the third. *)
Lemma dispatch_failure_keeps_recording_witness :
  send_slack_notification Examples.config (Examples.post_failing_at 2 2)
    Examples.greeting (lit "General Inquiry") (lit "Email from newuser@gmail.com - Hi...")
  = Ok false
  /\ exists self' records,
       run_triage_workflow Examples.config (fun _ => Examples.ai_down)
         (Examples.post_failing_at 2) init Examples.batch = Ok self'
       /\ processed_emails self' = processed_emails init ++ records
       /\ map record_source records = map message_source Examples.batch
       /\ Forall (fun r => In (r_category r) categories) records.
Proof.
  split; [reflexivity|].
  apply (@dispatch_failure_keeps_recording Examples.config
           (fun _ => Examples.ai_down) (Examples.post_failing_at 2)
           init Examples.batch).
  exact reachable_init.
Defined.

(** C6 - in every state of the object [generate_keyword_analytics] returns
    an entry per category, and the [top_keywords] of each entry are the
    first five items (all of them when there are fewer) of the frequency
    table of the category's keywords sorted by descending count, items of
    equal count staying in table order.  The table lists the distinct
    keywords in the order they are first met, each with the number of its
    occurrences.  A category without keywords has no top keywords. *)
Theorem top_keywords_ranked (self : System) :
  reachable self ->
  exists analytics,
    generate_keyword_analytics self = Ok analytics
    /\ map fst analytics = categories
    /\ forall category entry, In (category, entry) analytics ->
       exists keywords rest,
         dict_get category (category_keywords self) = Some keywords
         /\ length (top_keywords entry) <= 5
         /\ descending (top_keywords entry ++ rest)
         /\ (forall n, with_count n (top_keywords entry ++ rest)
                       = with_count n (Counter keywords))
         /\ map fst (Counter keywords) = first_seen keywords
         /\ (forall token count, In (token, count) (top_keywords entry) ->
                count = occurrences token keywords)
         /\ (keywords = [] -> top_keywords entry = []).
Proof.
  intros Hr.
  assert (Hentry : forall category keywords entry,
    dict_get category (category_keywords self) = Some keywords ->
    entry = category_analytics self category keywords ->
    exists keywords' rest,
      dict_get category (category_keywords self) = Some keywords'
      /\ length (top_keywords entry) <= 5
      /\ descending (top_keywords entry ++ rest)
      /\ (forall n, with_count n (top_keywords entry ++ rest)
                    = with_count n (Counter keywords'))
      /\ map fst (Counter keywords') = first_seen keywords'
      /\ (forall token count, In (token, count) (top_keywords entry) ->
             count = occurrences token keywords')
      /\ (keywords' = [] -> top_keywords entry = [])).
  { intros category keywords entry E ->.
    exists keywords, (skipn 5 (sorted_desc (Counter keywords))).
    rewrite top_keywords_eq. unfold most_common. rewrite firstn_skipn.
    destruct (Counter_table keywords) as (Hkeys & Hcount).
    split; [exact E|]. split; [apply firstn_le_length|].
    split; [apply sorted_desc_descending|].
    split; [intros n; apply sorted_desc_stable|].
    split; [exact Hkeys|]. split; [|now intros ->].
    intros token count Hin.
    assert (Hin' : In (token, count) (sorted_desc (Counter keywords))).
    { rewrite <- (firstn_skipn 5). apply in_or_app. now left. }
    apply with_count_In in Hin'. rewrite sorted_desc_stable in Hin'.
    apply with_count_In in Hin'. now apply Hcount. }
  destruct (@reachable_keys self Hr (lit "Product Support")) as (k1 & E1);
    [now left|].
  destruct (@reachable_keys self Hr (lit "Billing")) as (k2 & E2);
    [right; now left|].
  destruct (@reachable_keys self Hr (lit "General Inquiry")) as (k3 & E3);
    [right; right; now left|].
  unfold generate_keyword_analytics, categories. cbn [mapM].
  unfold getitem. rewrite E1, E2, E3. cbn [bind].
  eexists. split; [reflexivity|]. split; [reflexivity|].
  intros category entry [H|[H|[H|[]]]]; injection H as <- <-;
    eapply Hentry; solve [eassumption | reflexivity].
Qed.

(** The state after the first sample message has been recorded. *)
Lemma top_keywords_ranked_witness :
  exists analytics,
    generate_keyword_analytics Examples.recorded = Ok analytics
    /\ map fst analytics = categories
    /\ forall category entry, In (category, entry) analytics ->
       exists keywords rest,
         dict_get category (category_keywords Examples.recorded) = Some keywords
         /\ length (top_keywords entry) <= 5
         /\ descending (top_keywords entry ++ rest)
         /\ (forall n, with_count n (top_keywords entry ++ rest)
                       = with_count n (Counter keywords))
         /\ map fst (Counter keywords) = first_seen keywords
         /\ (forall token count, In (token, count) (top_keywords entry) ->
                count = occurrences token keywords)
         /\ (keywords = [] -> top_keywords entry = []).
Proof.
  apply (@top_keywords_ranked Examples.recorded).
  apply (@reachable_update init Examples.login_issue (lit "Product Support")
           (lit "Email from customer1@example.com - Login issue...")
           Examples.recorded reachable_init).
  reflexivity.
Defined.

(** C2 fails on the code: a message without any keyword is recorded, yet
    the snapshot reports no message in any category. *)
Lemma total_emails_misses_keywordless_message :
  exists self analytics,
    run_triage_workflow Examples.config (fun _ => Examples.ai_down)
      (Examples.post_failing_at 5) init [Examples.greeting] = Ok self
    /\ map r_category (processed_emails self) = [lit "General Inquiry"]
    /\ count_category self (lit "General Inquiry") = 1
    /\ generate_keyword_analytics self = Ok analytics
    /\ map (fun entry => total_emails (snd entry)) analytics = [0; 0; 0].
Proof.
  eexists; eexists. split; [reflexivity|]. repeat split.
Qed.

(* ===================================================================== *)
(** ** Invariants of the analytics state *)
(* ===================================================================== *)

Section StateInvariants.

Lemma dict_get_none_keys (V : Type) (k : str) (d : dict V) :
  dict_get k d = None <-> ~ In k (map fst d).
Proof.
  induction d as [|[k' v] d IH]; cbn [dict_get map fst].
  - split; [intros _ [] | reflexivity].
  - destruct (str_eqb k k') eqn:E.
    + apply str_eqb_eq in E. subst k'. split; [discriminate|].
      intros H. destruct H. now left.
    + rewrite IH. split.
      * intros H [<-|Hin]; [now rewrite str_eqb_refl in E | now apply H].
      * intros H Hin. apply H. now right.
Qed.

Lemma dict_set_keys (V : Type) (k : str) (v v0 : V) (d : dict V) :
  dict_get k d = Some v0 -> map fst (dict_set k v d) = map fst d.
Proof.
  induction d as [|[k' v'] d IH]; cbn [dict_get dict_set map fst];
    [discriminate|].
  destruct (str_eqb k k'); cbn [map fst]; [reflexivity|].
  intros H. now rewrite IH.
Qed.

(** The keys of [self.category_keywords] stay the three categories. *)
Lemma reachable_key_list (self : System) :
  reachable self -> map fst (category_keywords self) = categories.
Proof.
  induction 1 as [|self m category summary self' _ IH Hupd]; [reflexivity|].
  unfold update_analytics, getitem in Hupd.
  destruct (dict_get category (category_keywords self)) as [stored|] eqn:E;
    [|discriminate Hupd].
  injection Hupd as <-. cbn [category_keywords].
  now rewrite (@dict_set_keys _ _ _ _ _ E).
Qed.

Lemma reachable_log_categories (self : System) :
  reachable self ->
  Forall (fun r => In (r_category r) categories) (processed_emails self).
Proof.
  induction 1 as [|self m category summary self' Hr IH Hupd]; [constructor|].
  pose proof (reachable_key_list Hr) as Hkeys.
  unfold update_analytics, getitem in Hupd.
  destruct (dict_get category (category_keywords self)) as [stored|] eqn:E;
    [|discriminate Hupd].
  injection Hupd as <-. cbn [processed_emails].
  apply Forall_app. split; [exact IH|]. constructor; [|constructor].
  cbn [make_record r_category]. rewrite <- Hkeys.
  destruct (in_dec (list_eq_dec ascii_dec) category (map fst (category_keywords self)))
    as [Hin|Hout]; [exact Hin|].
  apply dict_get_none_keys in Hout. congruence.
Qed.

Lemma reachable_keywords (self : System) :
  reachable self ->
  forall c keywords,
    dict_get c (category_keywords self) = Some keywords ->
    keywords = keywords_of_category (processed_emails self) c.
Proof.
  induction 1 as [|self m category summary self' Hr IH Hupd]; intros c keywords Hc.
  - cbn in Hc. repeat (destruct (str_eqb c _); [now injection Hc as <-|]).
    discriminate Hc.
  - unfold update_analytics, getitem in Hupd.
    destruct (dict_get category (category_keywords self)) as [stored|] eqn:E;
      [|discriminate Hupd].
    injection Hupd as <-. cbn [category_keywords processed_emails] in *.
    rewrite dict_get_set in Hc.
    unfold keywords_of_category. rewrite filter_app, map_app, concat_app.
    cbn [filter make_record r_category].
    destruct (str_eqb c category) eqn:Ec.
    + apply str_eqb_eq in Ec. subst c. rewrite str_eqb_refl.
      injection Hc as <-. cbn [map concat r_keywords]. rewrite app_nil_r.
      f_equal. now apply IH.
    + replace (str_eqb category c) with false.
      * cbn [map concat]. rewrite app_nil_r. now apply IH.
      * symmetry. destruct (str_eqb category c) eqn:Ec'; [|reflexivity].
        apply str_eqb_eq in Ec'. subst. now rewrite str_eqb_refl in Ec.
Qed.

(** Every record is counted under exactly one of the three categories. *)
Lemma count_partition (self : System) :
  Forall (fun r => In (r_category r) categories) (processed_emails self) ->
  list_sum (map (count_category self) categories)
  = length (processed_emails self).
Proof.
  unfold count_category, categories, list_sum. cbn [map fold_right].
  induction 1 as [|r log Hr _ IH]; [reflexivity|].
  cbn [filter length] in *.
  destruct Hr as [<-|[<-|[<-|[]]]]; cbn; cbn in IH; lia.
Qed.

Lemma snapshot_entries (self : System) :
  reachable self ->
  generate_keyword_analytics self
  = Ok (map (fun c => (c, category_analytics self c
                            (keywords_of_category (processed_emails self) c)))
            categories).
Proof.
  intros Hr.
  assert (H : forall c, In c categories ->
            getitem c (category_keywords self)
            = Ok (keywords_of_category (processed_emails self) c)).
  { intros c Hc. destruct (reachable_keys Hr Hc) as (kws & E).
    unfold getitem. rewrite E. now rewrite (reachable_keywords Hr _ E). }
  unfold generate_keyword_analytics, categories in *. cbn [mapM map].
  rewrite !H by (cbn; auto). reflexivity.
Qed.

End StateInvariants.

(** X1 - the keyword store mirrors the log: in every state of the object
    and for each of the three categories, [self.category_keywords[category]]
    is the concatenation, in log order, of the keywords of the records filed
    under that category. *)
Theorem category_keywords_mirror_log (self : System) (category : str) :
  reachable self -> In category categories ->
  dict_get category (category_keywords self)
  = Some (concat (map r_keywords
                    (filter (fun r => str_eqb (r_category r) category)
                            (processed_emails self)))).
Proof.
  intros Hr Hc. destruct (reachable_keys Hr Hc) as (kws & E).
  now rewrite E, (reachable_keywords Hr _ E).
Qed.

Lemma category_keywords_mirror_log_witness :
  dict_get (lit "Product Support") (category_keywords Examples.recorded)
  = Some (concat (map r_keywords
                    (filter (fun r => str_eqb (r_category r) (lit "Product Support"))
                            (processed_emails Examples.recorded)))).
Proof.
  apply (@category_keywords_mirror_log Examples.recorded (lit "Product Support")).
  - apply (@reachable_update init Examples.login_issue (lit "Product Support")
             (lit "Email from customer1@example.com - Login issue...")
             Examples.recorded reachable_init).
    reflexivity.
  - left. reflexivity.
Defined.

(** X2 - [update_analytics] accepts exactly the three categories: in every
    state of the object a call with one of them succeeds and appends one
    record, and a call with any other category raises [KeyError] for that
    category. *)
Theorem update_analytics_outcome (self : System) (m : Message)
    (category summary : str) :
  reachable self ->
  (In category categories ->
     exists self',
       update_analytics self m category summary = Ok self'
       /\ processed_emails self'
          = processed_emails self
              ++ [make_record m category summary
                    (extract_keywords (subject m ++ lit " " ++ body m))]
       /\ map fst (category_keywords self') = categories)
  /\ (~ In category categories ->
        update_analytics self m category summary = Raise (KeyError category)).
Proof.
  intros Hr. split.
  - intros Hc. destruct (update_analytics_ok m summary Hr Hc) as (self' & E & Hlog).
    exists self'. split; [exact E|]. split; [exact Hlog|].
    apply reachable_key_list. eapply reachable_update; eassumption.
  - intros Hc. rewrite <- (reachable_key_list Hr) in Hc.
    apply dict_get_none_keys in Hc.
    unfold update_analytics, getitem. now rewrite Hc.
Qed.

Lemma update_analytics_outcome_witness :
  (In (lit "Billing") categories ->
     exists self',
       update_analytics init Examples.invoice_question (lit "Billing") (lit "s")
       = Ok self'
       /\ processed_emails self'
          = processed_emails init
              ++ [make_record Examples.invoice_question (lit "Billing") (lit "s")
                    (extract_keywords
                       (subject Examples.invoice_question ++ lit " "
                          ++ body Examples.invoice_question))]
       /\ map fst (category_keywords self') = categories)
  /\ (~ In (lit "Billing") categories ->
        update_analytics init Examples.invoice_question (lit "Billing") (lit "s")
        = Raise (KeyError (lit "Billing"))).
Proof.
  apply (@update_analytics_outcome init Examples.invoice_question
           (lit "Billing") (lit "s")).
  exact reachable_init.
Defined.

(** X3 - in every state of the object each record of the log carries one of
    the three categories, and the log holds as many records as the three
    per-category counts add up to. *)
Theorem log_categories_valid (self : System) :
  reachable self ->
  Forall (fun r => In (r_category r) categories) (processed_emails self)
  /\ list_sum (map (count_category self) categories)
     = length (processed_emails self).
Proof.
  intros Hr. pose proof (reachable_log_categories Hr) as H.
  split; [exact H | now apply (@count_partition self)].
Qed.

Lemma log_categories_valid_witness :
  Forall (fun r => In (r_category r) categories)
         (processed_emails Examples.recorded)
  /\ list_sum (map (count_category Examples.recorded) categories)
     = length (processed_emails Examples.recorded).
Proof.
  apply (@log_categories_valid Examples.recorded).
  apply (@reachable_update init Examples.login_issue (lit "Product Support")
           (lit "Email from customer1@example.com - Login issue...")
           Examples.recorded reachable_init).
  reflexivity.
Defined.

Section SnapshotTotals.

Lemma total_emails_le (self : System) (c : str) (keywords : list str) :
  total_emails (category_analytics self c keywords) <= count_category self c.
Proof. destruct keywords; cbn; lia. Qed.

Lemma total_emails_cases (self : System) (c : str) (keywords : list str) :
  total_emails (category_analytics self c keywords)
  = match keywords with
    | [] => 0
    | _ :: _ => count_category self c
    end.
Proof. now destruct keywords. Qed.

Lemma no_keywords_no_records (log : list TriageRecord) (c : str) :
  (forall r, In r log -> r_keywords r <> []) ->
  keywords_of_category log c = [] ->
  filter (fun r => str_eqb (r_category r) c) log = [].
Proof.
  unfold keywords_of_category. intros Hall H.
  destruct (filter _ log) as [|r fl] eqn:E; [reflexivity|].
  assert (Hin : In r log).
  { assert (In r (r :: fl)) as Hr by now left.
    rewrite <- E in Hr. now apply filter_In in Hr. }
  cbn [map concat] in H. apply app_eq_nil in H as [H _].
  now destruct (Hall r Hin).
Qed.

End SnapshotTotals.

(** X4 - in every state of the object the snapshot reports, for each
    category, 0 when no keyword is stored for it and the number of its
    records otherwise; no total exceeds the number of records of its
    category, and the totals add up to at most the length of the log. *)
Theorem snapshot_totals_bounded (self : System) :
  reachable self ->
  exists analytics,
    generate_keyword_analytics self = Ok analytics
    /\ map fst analytics = categories
    /\ (forall c entry, In (c, entry) analytics ->
          total_emails entry
          = match keywords_of_category (processed_emails self) c with
            | [] => 0
            | _ :: _ => count_category self c
            end
          /\ total_emails entry <= count_category self c)
    /\ list_sum (totals analytics) <= length (processed_emails self).
Proof.
  intros Hr. eexists. split; [apply (snapshot_entries Hr)|].
  split; [|split].
  - rewrite map_map. cbn [fst]. apply map_id.
  - intros c entry Hin. apply in_map_iff in Hin as (c' & E & _).
    injection E as -> <-. split; [apply total_emails_cases | apply total_emails_le].
  - rewrite <- (@count_partition self (reachable_log_categories Hr)).
    unfold totals, categories, list_sum. cbn [map fold_right snd].
    pose proof (fun c => total_emails_le self c
                  (keywords_of_category (processed_emails self) c)) as H.
    pose proof (H (lit "Product Support")). pose proof (H (lit "Billing")).
    pose proof (H (lit "General Inquiry")). lia.
Qed.

Lemma snapshot_totals_bounded_witness :
  exists analytics,
    generate_keyword_analytics Examples.recorded = Ok analytics
    /\ map fst analytics = categories
    /\ (forall c entry, In (c, entry) analytics ->
          total_emails entry
          = match keywords_of_category (processed_emails Examples.recorded) c with
            | [] => 0
            | _ :: _ => count_category Examples.recorded c
            end
          /\ total_emails entry <= count_category Examples.recorded c)
    /\ list_sum (totals analytics) <= length (processed_emails Examples.recorded).
Proof.
  apply (@snapshot_totals_bounded Examples.recorded).
  apply (@reachable_update init Examples.login_issue (lit "Product Support")
           (lit "Email from customer1@example.com - Login issue...")
           Examples.recorded reachable_init).
  reflexivity.
Defined.

(** X5 - when every recorded message yielded at least one keyword, the
    snapshot is exact: each category's total is the number of its records
    and the totals add up to the length of the log. *)
Theorem snapshot_totals_exact (self : System) :
  reachable self ->
  (forall r, In r (processed_emails self) -> r_keywords r <> []) ->
  exists analytics,
    generate_keyword_analytics self = Ok analytics
    /\ (forall c entry, In (c, entry) analytics ->
          total_emails entry = count_category self c)
    /\ list_sum (totals analytics) = length (processed_emails self).
Proof.
  intros Hr Hall.
  assert (H : forall c,
    total_emails (category_analytics self c
                    (keywords_of_category (processed_emails self) c))
    = count_category self c).
  { intros c. rewrite total_emails_cases.
    destruct (keywords_of_category (processed_emails self) c) eqn:E;
      [|reflexivity].
    unfold count_category. now rewrite (no_keywords_no_records _ c Hall E). }
  eexists. split; [apply (snapshot_entries Hr)|]. split.
  - intros c entry Hin. apply in_map_iff in Hin as (c' & E & _).
    injection E as -> <-. apply H.
  - rewrite <- (@count_partition self (reachable_log_categories Hr)).
    unfold totals, categories, list_sum. cbn [map fold_right snd]. now rewrite !H.
Qed.

Lemma snapshot_totals_exact_witness :
  exists analytics,
    generate_keyword_analytics Examples.recorded = Ok analytics
    /\ (forall c entry, In (c, entry) analytics ->
          total_emails entry = count_category Examples.recorded c)
    /\ list_sum (totals analytics) = length (processed_emails Examples.recorded).
Proof.
  apply (@snapshot_totals_exact Examples.recorded).
  - apply (@reachable_update init Examples.login_issue (lit "Product Support")
             (lit "Email from customer1@example.com - Login issue...")
             Examples.recorded reachable_init).
    reflexivity.
  - intros r [<-|[]]. discriminate.
Defined.

(* ===================================================================== *)
(** ** Frequency tables *)
(* ===================================================================== *)

Section FrequencyTables.

Lemma insert_desc_perm (x : str * nat) (l : list (str * nat)) :
  Permutation (insert_desc x l) (x :: l).
Proof.
  induction l as [|y l IH]; cbn [insert_desc]; [reflexivity|].
  destruct (snd x <? snd y); [|reflexivity].
  rewrite IH. apply perm_swap.
Qed.

Lemma sorted_desc_perm (l : list (str * nat)) : Permutation (sorted_desc l) l.
Proof.
  induction l as [|x l IH]; [reflexivity|].
  cbn [sorted_desc fold_right]. fold (sorted_desc l).
  rewrite insert_desc_perm. now constructor.
Qed.

Lemma counter_add_sum (k : str) (c : dict nat) :
  list_sum (map snd (counter_add k c)) = S (list_sum (map snd c)).
Proof.
  induction c as [|[k' n] c IH]; cbn [counter_add]; [reflexivity|].
  destruct (str_eqb k k'); cbn [map snd list_sum fold_right] in *.
  - reflexivity.
  - change (fold_right Nat.add 0 (map snd (counter_add k c)))
      with (list_sum (map snd (counter_add k c))).
    rewrite IH. cbn [list_sum]. unfold list_sum. lia.
Qed.

Lemma counter_fold_sum (l : list str) (c : dict nat) :
  list_sum (map snd (fold_left (fun c k => counter_add k c) l c))
  = list_sum (map snd c) + length l.
Proof.
  revert c; induction l as [|x l IH]; intros c; cbn [fold_left length].
  - lia.
  - rewrite IH, counter_add_sum. lia.
Qed.

Lemma occurrences_In (k : str) (l : list str) :
  1 <= occurrences k l -> In k l.
Proof.
  unfold occurrences. intros H.
  destruct (filter (str_eqb k) l) as [|x f] eqn:E; [cbn in H; lia|].
  assert (Hx : In x (filter (str_eqb k) l)) by (rewrite E; now left).
  apply filter_In in Hx as [Hx Hk]. apply str_eqb_eq in Hk. now subst.
Qed.

Lemma NoDup_firstn_keys (A : Type) (n : nat) (l : list A) :
  NoDup l -> NoDup (firstn n l).
Proof.
  intros H. rewrite <- (firstn_skipn n l) in H.
  now apply NoDup_app_remove_r in H.
Qed.

End FrequencyTables.

(** X6 - the [n] most common keywords of a list: no keyword is listed
    twice, every listed keyword occurs in the list and is paired with the
    number of its occurrences, the listing has [n] entries or as many as
    there are distinct keywords, and the counts of the whole table add up to
    the length of the list. *)
Theorem most_common_keywords (n : nat) (l : list str) :
  NoDup (map fst (most_common n (Counter l)))
  /\ (forall t c, In (t, c) (most_common n (Counter l)) ->
        In t l /\ c = occurrences t l)
  /\ length (most_common n (Counter l)) = min n (length (first_seen l))
  /\ list_sum (map snd (Counter l)) = length l.
Proof.
  destruct (Counter_table l) as (Hkeys & Hcount).
  destruct (@counter_fold l [] (NoDup_nil _)) as (Hnd & _ & _).
  fold (Counter l) in Hnd.
  split; [|split; [|split]].
  - unfold most_common. rewrite <- firstn_map. apply NoDup_firstn_keys.
    eapply Permutation_NoDup; [|exact Hnd].
    apply Permutation_map. symmetry. apply sorted_desc_perm.
  - intros t c Hin. unfold most_common in Hin.
    assert (Hin' : In (t, c) (Counter l)).
    { eapply Permutation_in; [apply sorted_desc_perm|].
      rewrite <- (firstn_skipn n). apply in_or_app. now left. }
    destruct (Hcount _ _ Hin') as (-> & Hpos).
    split; [now apply occurrences_In | reflexivity].
  - unfold most_common. rewrite length_firstn.
    rewrite (Permutation_length (sorted_desc_perm (Counter l))).
    now rewrite <- Hkeys, length_map.
  - unfold Counter. now rewrite counter_fold_sum.
Qed.

(* ===================================================================== *)
(** ** Reading the reply of the service *)
(* ===================================================================== *)

Section Replies.

Lemma lstrip_head (c : ascii) (s : str) :
  py_isspace c = false -> lstrip (c :: s) = c :: s.
Proof. intros H. cbn [lstrip]. now rewrite H. Qed.

Lemma last_app_nonempty (A : Type) (a s : list A) (d d' : A) :
  s <> [] -> last (a ++ s) d = last s d'.
Proof.
  intros Hs. destruct s as [|z s] using rev_ind; [now destruct Hs|].
  now rewrite app_assoc, !last_last.
Qed.

Lemma py_strip_stripped (s : str) : stripped s = true -> py_strip s = s.
Proof.
  destruct s as [|c s]; [discriminate|]. cbn [stripped].
  intros H. apply andb_true_iff in H as [Hc Hz].
  apply negb_true_iff in Hc, Hz.
  unfold py_strip. rewrite (@lstrip_head c s Hc).
  destruct (rev (c :: s)) as [|z r] eqn:E.
  - apply (f_equal (@length ascii)) in E. rewrite length_rev in E. discriminate E.
  - assert (Es : c :: s = rev r ++ [z]).
    { rewrite <- (rev_involutive (c :: s)), E. reflexivity. }
    rewrite Es, last_last in Hz. rewrite (@lstrip_head z r Hz).
    now rewrite Es.
Qed.

Lemma stripped_app (a s : str) (c : ascii) :
  py_isspace c = false -> stripped s = true -> stripped (c :: a ++ s) = true.
Proof.
  intros Hc Hs. destruct s as [|x s]; [discriminate|].
  cbn [stripped] in *. rewrite Hc. cbn [negb andb].
  apply andb_true_iff in Hs as [_ Hs].
  change (c :: a ++ x :: s) with ((c :: a) ++ x :: s).
  now rewrite (@last_app_nonempty _ (c :: a) (x :: s) c x).
Qed.

Lemma replace_skip (old new x t : str) :
  replace_from old new (length x) (x ++ t) = replace_from old new 0 t.
Proof. induction x as [|c x IH]; [reflexivity | exact IH]. Qed.

(** The first occurrence at the very start is replaced, and the scan goes
    on after it. *)
Lemma py_replace_prefix (a : ascii) (old new t : str) :
  py_replace (a :: old) new ((a :: old) ++ t) = new ++ py_replace (a :: old) new t.
Proof.
  unfold py_replace. cbn [app replace_from].
  change (py_startswith (a :: old) (a :: old ++ t))
    with (py_startswith (a :: old) ((a :: old) ++ t)).
  rewrite py_startswith_app.
  replace (length (a :: old) - 1) with (length old) by (cbn [length]; lia).
  now rewrite replace_skip.
Qed.

(** A string that does not hold [old] is left as it is. *)
Lemma py_replace_absent (old new s : str) :
  py_in old s = false -> py_replace old new s = s.
Proof.
  unfold py_replace. induction s as [|c s IH]; cbn [py_in replace_from];
    [reflexivity|].
  intros H. apply orb_false_iff in H as [H1 H2]. rewrite H1. f_equal. now apply IH.
Qed.

Lemma split_lines_snoc (text line : str) :
  ~ In newline line ->
  py_split_lines (text ++ newline :: line) = py_split_lines text ++ [line].
Proof.
  intros Hline. unfold py_split_lines.
  destruct (split_by_app (Ascii.eqb newline) text) as (init & la & E & Happ).
  rewrite E. rewrite (Happ _ [] [line]).
  - rewrite app_nil_r, <- app_assoc. reflexivity.
  - cbn [split_by]. rewrite Ascii.eqb_refl. f_equal.
    apply split_by_single. apply Forall_forall. intros c Hc.
    destruct (Ascii.eqb newline c) eqn:Ec; [|reflexivity].
    apply Ascii.eqb_eq in Ec. now subst c.
Qed.

Lemma split_lines_single (line : str) :
  ~ In newline line -> py_split_lines line = [line].
Proof.
  intros Hline. apply split_by_single. apply Forall_forall. intros c Hc.
  destruct (Ascii.eqb newline c) eqn:Ec; [|reflexivity].
  apply Ascii.eqb_eq in Ec. now subst c.
Qed.

Lemma parse_response_snoc (text line : str) :
  ~ In newline line ->
  parse_response (text ++ newline :: line)
  = parse_line (parse_response text) line.
Proof.
  intros H. unfold parse_response.
  now rewrite split_lines_snoc, fold_left_app.
Qed.

Lemma parse_category_line (c : str) :
  In c categories ->
  ~ In newline (lit "Category: " ++ c)
  /\ parse_line (None, None) (lit "Category: " ++ c) = (Some c, None).
Proof.
  intros [<-|[<-|[<-|[]]]]; (split; [|vm_compute; reflexivity]);
    vm_compute; intros H;
    repeat (destruct H as [H|H]; [discriminate H|]); exact H.
Qed.

Lemma parse_summary_line (vars : option str * option str) (s : str) :
  stripped s = true -> py_in (lit "Summary:") s = false ->
  parse_line vars (lit "Summary: " ++ s) = (fst vars, Some s).
Proof.
  intros Hs Habs. unfold parse_line.
  change (py_startswith (lit "Category:") (lit "Summary: " ++ s)) with false.
  cbv iota.
  change (lit "Summary: " ++ s) with (lit "Summary:" ++ " "%char :: s).
  rewrite py_startswith_app.
  change (lit "Summary:") with ("S"%char :: lit "ummary:").
  rewrite py_replace_prefix. cbn [app].
  unfold py_replace at 1. cbn [replace_from].
  change (py_startswith ("S"%char :: lit "ummary:") (" "%char :: s)) with false.
  cbv iota. fold (py_replace ("S"%char :: lit "ummary:") [] s).
  change ("S"%char :: lit "ummary:") with (lit "Summary:").
  rewrite (@py_replace_absent (lit "Summary:") [] s Habs).
  unfold py_strip at 1. cbn [lstrip].
  change (py_isspace " "%char) with true. cbv iota.
  fold (py_strip s). now rewrite py_strip_stripped.
Qed.

End Replies.

(** X7 - a reply in the requested format is read back as it was written:
    when the service answers "Category: <c>", a line break, "Summary: <s>"
    with [c] one of the three categories and [s] a one-line text without
    surrounding white space that does not hold "Summary:", the method
    returns exactly [(c, s)]. *)
Theorem well_formed_reply_read_back (model : Model) (m : Message) (c s : str) :
  In c categories ->
  stripped s = true ->
  ~ In newline s ->
  py_in (lit "Summary:") s = false ->
  model (build_prompt m) = Ok (format_reply c s) ->
  classify_and_summarize_email model m = Ok (c, s).
Proof.
  intros Hc Hs Hnl Habs Hm.
  unfold classify_and_summarize_email. rewrite Hm. cbn [bind try_except].
  f_equal. rewrite validated_result_eq.
  destruct (parse_category_line Hc) as (Hnl1 & Hline1).
  assert (Hstrip : py_strip (format_reply c s) = format_reply c s).
  { apply py_strip_stripped. unfold format_reply.
    replace (lit "Category: " ++ c ++ [newline] ++ lit "Summary: " ++ s)
      with ("C"%char :: (lit "ategory: " ++ c ++ [newline] ++ lit "Summary: ") ++ s)
      by (cbn [lit list_ascii_of_string app]; now rewrite <- !app_assoc).
    now apply stripped_app. }
  rewrite Hstrip.
  assert (Hparse : parse_response (format_reply c s) = (Some c, Some s)).
  { unfold format_reply.
    replace (lit "Category: " ++ c ++ [newline] ++ lit "Summary: " ++ s)
      with ((lit "Category: " ++ c) ++ newline :: (lit "Summary: " ++ s))
      by now rewrite <- app_assoc.
    rewrite parse_response_snoc.
    - unfold parse_response. rewrite (@split_lines_single _ Hnl1).
      cbn [fold_left]. rewrite Hline1. now apply parse_summary_line.
    - intros Hin. apply in_app_or in Hin as [Hin|Hin]; [|now apply Hnl].
      vm_compute in Hin.
      repeat (destruct Hin as [Hin|Hin]; [discriminate Hin|]). exact Hin. }
  rewrite Hparse. cbn [fst snd]. f_equal.
  - unfold validate_category.
    replace (str_mem c categories) with true; [reflexivity|].
    symmetry. now apply str_mem_In.
  - destruct s; [discriminate Hs | reflexivity].
Qed.

Lemma well_formed_reply_read_back_witness :
  classify_and_summarize_email
    (fun _ => Ok (format_reply (lit "Billing") (lit "Customer was charged twice.")))
    Examples.invoice_question
  = Ok (lit "Billing", lit "Customer was charged twice.").
Proof.
  apply (@well_formed_reply_read_back
           (fun _ => Ok (format_reply (lit "Billing")
                                      (lit "Customer was charged twice.")))
           Examples.invoice_question (lit "Billing")
           (lit "Customer was charged twice.")).
  - right; left; reflexivity.
  - reflexivity.
  - vm_compute. intros H.
    repeat (destruct H as [H|H]; [discriminate H|]). exact H.
  - reflexivity.
  - reflexivity.
Defined.

(** X8 - the lines of a reply are read from first to last and a later line
    overrides an earlier one: reading a text followed by one more line is
    reading the text and then that line, so a final "Category:" line decides
    the category whatever came before. *)
Theorem later_line_overrides (text line : str) :
  ~ In newline line ->
  parse_response (text ++ [newline] ++ line)
  = parse_line (parse_response text) line
  /\ (py_startswith (lit "Category:") line = true ->
      fst (parse_response (text ++ [newline] ++ line))
      = Some (py_strip (py_replace (lit "Category:") [] line))).
Proof.
  intros H. cbn [app]. rewrite (@parse_response_snoc text line H).
  split; [reflexivity|]. intros Hc. unfold parse_line. now rewrite Hc.
Qed.

Lemma later_line_overrides_witness :
  parse_response (lit "Category: Billing" ++ [newline] ++ lit "Category: Product Support")
  = parse_line (parse_response (lit "Category: Billing"))
               (lit "Category: Product Support")
  /\ (py_startswith (lit "Category:") (lit "Category: Product Support") = true ->
      fst (parse_response
             (lit "Category: Billing" ++ [newline] ++ lit "Category: Product Support"))
      = Some (py_strip (py_replace (lit "Category:") []
                                   (lit "Category: Product Support")))).
Proof.
  apply (@later_line_overrides (lit "Category: Billing")
           (lit "Category: Product Support")).
  vm_compute. intros H.
  repeat (destruct H as [H|H]; [discriminate H|]). exact H.
Defined.

(* ===================================================================== *)
(** ** Notifications and the loop *)
(* ===================================================================== *)

(** X9 - the notification.  Without a channel map in the configuration the
    method answers [False] whatever the webhook would do.  With one, a
    single request decides: the method answers [True] exactly when the
    webhook returns status 200 for it; the subject shown is at most 53
    characters long, and is the subject itself when that has at most 50; a
    category without an entry in the map goes to "#general". *)
Theorem send_slack_notification_outcome (config : Config) (post : Http)
    (m : Message) (category summary : str) :
  match slack_channels config with
  | None => send_slack_notification config post m category summary = Ok false
  | Some channels =>
      let request := slack_message_for channels m category summary in
      send_slack_notification config post m category summary
      = Ok (accepted (post (slack_webhook_url config) request))
      /\ length (subject_field request) <= 53
      /\ (length (subject m) <= 50 -> subject_field request = subject m)
      /\ (~ In category (map fst channels) -> channel request = lit "#general")
  end.
Proof.
  unfold send_slack_notification.
  destruct (slack_channels config) as [channels|]; [|reflexivity].
  cbn [bind]. fold (slack_message_for channels m category summary).
  set (request := slack_message_for channels m category summary).
  split; [|split; [|split]].
  - destruct (post (slack_webhook_url config) request) as [status|e];
      cbn [bind try_except accepted]; [|reflexivity].
    now destruct (status =? 200).
  - unfold request, slack_message_for, slice_to. cbn [subject_field].
    rewrite length_app, length_firstn.
    destruct (50 <? length (subject m)); cbn [length lit list_ascii_of_string]; lia.
  - intros Hlen. unfold request, slack_message_for, slice_to. cbn [subject_field].
    replace (50 <? length (subject m)) with false
      by (symmetry; apply Nat.ltb_ge; exact Hlen).
    rewrite app_nil_r. now apply firstn_all2.
  - intros Hout. unfold request, slack_message_for, get_default. cbn [channel].
    apply dict_get_none_keys in Hout. now rewrite Hout.
Qed.

(** X10 - batches compose: processing one batch after another, the second
    starting with the service behaviours that follow the first, is
    processing their concatenation, whether the run ends normally or with
    an exception. *)
Theorem triage_loop_app (config : Config) (ai : nat -> Model) (post : nat -> Http)
    (i : nat) (self : System) (first second : list Message) :
  triage_loop config ai post i self (first ++ second)
  = (self' <- triage_loop config ai post i self first ;;
     triage_loop config ai post (i + length first) self' second).
Proof.
  revert i self; induction first as [|m first IH]; intros i self.
  - cbn [app triage_loop bind length]. now rewrite Nat.add_0_r.
  - cbn [app triage_loop length].
    destruct (classify_and_summarize_email (ai i) m) as [[category summary]|e];
      cbn [bind]; [|reflexivity].
    destruct (send_slack_notification config (post i) m category summary)
      as [sent|e]; cbn [bind]; [|reflexivity].
    destruct (update_analytics self m category summary) as [self1|e];
      cbn [bind]; [|reflexivity].
    rewrite IH. now replace (i + S (length first)) with (S i + length first) by lia.
Qed.

Section LoopRecords.

Lemma record_for_ok (model : Model) (m : Message) (category summary : str) :
  classify_and_summarize_email model m = Ok (category, summary) ->
  record_for model m
  = make_record m category summary
      (extract_keywords (subject m ++ lit " " ++ body m)).
Proof. intros E. unfold record_for. now rewrite E. Qed.

Lemma triage_loop_log (config : Config) (ai : nat -> Model) (post : nat -> Http)
    (emails : list Message) :
  forall (i : nat) (self : System), reachable self ->
  exists self',
    triage_loop config ai post i self emails = Ok self'
    /\ reachable self'
    /\ processed_emails self' = processed_emails self ++ records_for ai i emails.
Proof.
  induction emails as [|m emails IH]; intros i self Hr.
  - exists self. cbn [triage_loop records_for]. rewrite app_nil_r. auto.
  - cbn [triage_loop records_for].
    destruct (classify_valid (ai i) m) as (category & summary & Hcls & Hc & _).
    rewrite Hcls, (record_for_ok _ _ Hcls). cbn [bind].
    destruct (send_slack_notification_returns config (post i) m category summary)
      as (sent & ->).
    cbn [bind].
    destruct (update_analytics_ok m summary Hr Hc) as (self1 & Hupd & Hlog).
    rewrite Hupd. cbn [bind].
    destruct (IH (S i) self1) as (self' & -> & Hr' & Hlog').
    { eapply reachable_update; eauto. }
    exists self'. split; [reflexivity|]. split; [exact Hr'|].
    rewrite Hlog', Hlog, <- app_assoc. reflexivity.
Qed.

End LoopRecords.

(** X11 - the log after a batch: the loop appends, for each message in
    turn, the record made of the message's time stamp, sender and subject,
    the category and summary that [classify_and_summarize_email] returns
    for it, and the keywords of "subject body"; the webhook has no part in
    it, and the keyword store again mirrors the log. *)
Theorem triage_loop_log_content (config : Config) (ai : nat -> Model)
    (post : nat -> Http) (i : nat) (self : System) (emails : list Message) :
  reachable self ->
  exists self',
    triage_loop config ai post i self emails = Ok self'
    /\ processed_emails self' = processed_emails self ++ records_for ai i emails
    /\ (forall post', triage_loop config ai post' i self emails = Ok self')
    /\ (forall c, In c categories ->
          dict_get c (category_keywords self')
          = Some (keywords_of_category (processed_emails self') c)).
Proof.
  intros Hr.
  destruct (triage_loop_log config ai post emails i Hr) as (self' & E & Hr' & Hlog).
  exists self'. split; [exact E|]. split; [exact Hlog|]. split.
  - intros post'. revert E. clear Hlog Hr'. revert i self Hr self'.
    induction emails as [|m emails IH]; intros i self Hr self' E; [exact E|].
    cbn [triage_loop] in *.
    destruct (classify_and_summarize_email (ai i) m) as [[category summary]|e];
      cbn [bind] in *; [|discriminate E].
    destruct (send_slack_notification_returns config (post i) m category summary)
      as (sent & Hs).
    destruct (send_slack_notification_returns config (post' i) m category summary)
      as (sent' & Hs').
    rewrite Hs in E. rewrite Hs'. cbn [bind] in *.
    destruct (update_analytics self m category summary) as [self1|e] eqn:Hupd;
      cbn [bind] in *; [|discriminate E].
    apply (IH (S i) self1); [|exact E]. eapply reachable_update; eauto.
  - intros c Hc. destruct (reachable_keys Hr' Hc) as (kws & Ek).
    now rewrite Ek, (reachable_keywords Hr' _ Ek).
Qed.

Lemma triage_loop_log_content_witness :
  exists self',
    triage_loop Examples.config (fun _ => Examples.ai_down)
      (Examples.post_failing_at 2) 0 init Examples.batch = Ok self'
    /\ processed_emails self'
       = processed_emails init
           ++ records_for (fun _ => Examples.ai_down) 0 Examples.batch
    /\ (forall post',
          triage_loop Examples.config (fun _ => Examples.ai_down) post' 0 init
            Examples.batch = Ok self')
    /\ (forall c, In c categories ->
          dict_get c (category_keywords self')
          = Some (keywords_of_category (processed_emails self') c)).
Proof.
  apply (@triage_loop_log_content Examples.config (fun _ => Examples.ai_down)
           (Examples.post_failing_at 2) 0 init Examples.batch).
  exact reachable_init.
Defined.

(** X12 - the demo records what the production loop records: for the same
    configuration, service behaviours, state and messages, the loop of
    [run_demo] and the loop of [run_triage_workflow] end alike, whatever
    the webhook would answer. *)
Theorem demo_loop_same_log (config : Config) (ai : nat -> Model)
    (post : nat -> Http) (i : nat) (self : System) (emails : list Message) :
  Demo.demo_loop config ai i self emails
  = triage_loop config ai post i self emails.
Proof.
  revert i self; induction emails as [|m emails IH]; intros i self; [reflexivity|].
  cbn [Demo.demo_loop triage_loop].
  destruct (classify_and_summarize_email (ai i) m) as [[category summary]|e];
    cbn [bind]; [|reflexivity].
  destruct (send_slack_notification_returns config (post i) m category summary)
    as (sent & ->).
  assert (Hdemo : exists sent',
            Demo.send_slack_notification config m category summary = Ok sent').
  { unfold Demo.send_slack_notification.
    destruct (slack_channels config); cbn [bind try_except]; eexists; reflexivity. }
  destruct Hdemo as (sent' & ->). cbn [bind].
  destruct (update_analytics self m category summary) as [self1|e];
    cbn [bind]; [apply IH | reflexivity].
Qed.

(* ===================================================================== *)
(** ** The analytics report *)
(* ===================================================================== *)

Section ReportLemmas.

Import Reports.

Lemma code_inj (x y : ascii) : code x = code y -> x = y.
Proof.
  unfold code. intros H.
  rewrite <- (ascii_nat_embedding x), <- (ascii_nat_embedding y). now rewrite H.
Qed.

Lemma str_ltb_irrefl (a : str) : str_ltb a a = false.
Proof.
  induction a as [|x a IH]; [reflexivity|]. cbn [str_ltb].
  now rewrite Nat.ltb_irrefl, Nat.eqb_refl, IH.
Qed.

Lemma str_ltb_trans (a b c : str) :
  str_ltb a b = true -> str_ltb b c = true -> str_ltb a c = true.
Proof.
  revert b c; induction a as [|x a IH]; intros [|y b] [|z c]; cbn [str_ltb];
    try discriminate; try reflexivity.
  intros H1 H2.
  apply orb_true_iff in H1. apply orb_true_iff in H2. apply orb_true_iff.
  destruct H1 as [H1|H1]; destruct H2 as [H2|H2];
    try apply Nat.ltb_lt in H1; try apply Nat.ltb_lt in H2;
    try (apply andb_true_iff in H1 as [E1 H1]; apply Nat.eqb_eq in E1);
    try (apply andb_true_iff in H2 as [E2 H2]; apply Nat.eqb_eq in E2).
  - left. apply Nat.ltb_lt. lia.
  - left. apply Nat.ltb_lt. lia.
  - left. apply Nat.ltb_lt. lia.
  - right. apply andb_true_iff. split; [apply Nat.eqb_eq; lia|].
    now apply (IH b c).
Qed.

Lemma str_ltb_total (a b : str) :
  str_ltb a b = true \/ a = b \/ str_ltb b a = true.
Proof.
  revert b; induction a as [|x a IH]; intros [|y b]; cbn [str_ltb]; auto.
  destruct (Nat.lt_trichotomy (code x) (code y)) as [H|[H|H]].
  - left. apply orb_true_iff. left. now apply Nat.ltb_lt.
  - apply code_inj in H. subst y. rewrite Nat.ltb_irrefl, Nat.eqb_refl. cbn [orb andb].
    destruct (IH b) as [H|[H|H]]; auto. right; left. now subst.
  - right; right. apply orb_true_iff. left. now apply Nat.ltb_lt.
Qed.

(** [r <= x < b] gives [r <= b], and [x < r <= b] gives [x < b]. *)
Lemma str_le_lt (r x b : str) :
  str_ltb x r = false -> str_ltb x b = true -> str_ltb b r = false.
Proof.
  intros H1 H2. destruct (str_ltb b r) eqn:E; [|reflexivity].
  now rewrite (str_ltb_trans _ _ _ H2 E) in H1.
Qed.

Lemma str_lt_le (x r b : str) :
  str_ltb x r = true -> str_ltb b r = false -> str_ltb x b = true.
Proof.
  intros H1 H2. destruct (str_ltb_total r b) as [H|[H|H]].
  - now apply (str_ltb_trans _ _ _ H1 H).
  - now subst.
  - congruence.
Qed.

Lemma str_min_from_least (l : list str) :
  forall best,
    In (str_min_from best l) (best :: l)
    /\ forall t, In t (best :: l) -> str_ltb t (str_min_from best l) = false.
Proof.
  induction l as [|x l IH]; intros best; cbn [str_min_from].
  - split; [now left|]. intros t [<-|[]]. apply str_ltb_irrefl.
  - destruct (str_ltb x best) eqn:E.
    + destruct (IH x) as (Hin & Hle). split.
      * right. exact Hin.
      * intros t [<-|Ht]; [|now apply Hle].
        eapply str_le_lt; [apply Hle; now left | exact E].
    + destruct (IH best) as (Hin & Hle). split.
      * destruct Hin as [Hin|Hin]; [now left | right; now right].
      * intros t [<-|[<-|Ht]].
        -- apply Hle. now left.
        -- destruct (str_ltb x (str_min_from best l)) eqn:E'; [|reflexivity].
           rewrite (str_lt_le _ _ _ E' (Hle best (or_introl eq_refl))) in E.
           discriminate E.
        -- apply Hle. now right.
Qed.

Lemma str_max_from_greatest (l : list str) :
  forall best,
    In (str_max_from best l) (best :: l)
    /\ forall t, In t (best :: l) -> str_ltb (str_max_from best l) t = false.
Proof.
  induction l as [|x l IH]; intros best; cbn [str_max_from].
  - split; [now left|]. intros t [<-|[]]. apply str_ltb_irrefl.
  - destruct (str_ltb best x) eqn:E.
    + destruct (IH x) as (Hin & Hle). split.
      * right. exact Hin.
      * intros t [<-|Ht]; [|now apply Hle].
        destruct (str_ltb (str_max_from x l) best) eqn:E'; [|reflexivity].
        pose proof (str_ltb_trans _ _ _ E' E) as H.
        now rewrite (Hle x (or_introl eq_refl)) in H.
    + destruct (IH best) as (Hin & Hle). split.
      * destruct Hin as [Hin|Hin]; [now left | right; now right].
      * intros t [<-|[<-|Ht]].
        -- apply Hle. now left.
        -- destruct (str_ltb (str_max_from best l) x) eqn:E'; [|reflexivity].
           destruct (str_ltb_total best (str_max_from best l)) as [H|[H|H]].
           ++ now rewrite (str_ltb_trans _ _ _ H E') in E.
           ++ rewrite <- H in E'. congruence.
           ++ now rewrite (Hle best (or_introl eq_refl)) in H.
        -- apply Hle. now right.
Qed.

(** [max] returns the first item of greatest key. *)
Lemma max_from_first (A : Type) (key : A -> nat) (l : list A) :
  forall best, exists pre post,
    best :: l = pre ++ max_from key best l :: post
    /\ Forall (fun x => key x < key (max_from key best l)) pre
    /\ Forall (fun x => key x <= key (max_from key best l)) post.
Proof.
  induction l as [|x l IH]; intros best; cbn [max_from].
  - exists [], []. repeat split; constructor.
  - destruct (key best <? key x) eqn:E.
    + apply Nat.ltb_lt in E.
      destruct (IH x) as (pre & post & Hd & Hpre & Hpost).
      exists (best :: pre), post. split; [cbn [app]; now rewrite <- Hd|].
      split; [|exact Hpost]. constructor; [|exact Hpre].
      destruct pre as [|p pre]; cbn [app] in Hd; injection Hd as Hx _.
      * now rewrite <- Hx.
      * subst p. inversion Hpre; subst. lia.
    + apply Nat.ltb_ge in E.
      destruct (IH best) as (pre & post & Hd & Hpre & Hpost).
      destruct pre as [|p pre]; cbn [app] in Hd; injection Hd as Hb Hl.
      * exists [], (x :: post). split; [cbn [app]; now rewrite <- Hb, <- Hl|].
        split; [constructor|]. constructor; [rewrite <- Hb; exact E|].
        exact Hpost.
      * subst p. exists (best :: x :: pre), post.
        split; [cbn [app]; do 2 f_equal; exact Hl|]. split; [|exact Hpost].
        inversion Hpre; subst. constructor; [assumption|].
        constructor; [lia | assumption].
Qed.

End ReportLemmas.

Section ReportFacts.

Import Reports.

Lemma dict_get_map (V : Type) (g : str -> V) (k : str) (l : list str) (v : V) :
  dict_get k (map (fun c => (c, g c)) l) = Some v -> exists c, In c l /\ v = g c.
Proof.
  induction l as [|c l IH]; cbn [map dict_get]; [discriminate|].
  destruct (str_eqb k c).
  - intros H. injection H as <-. exists c. split; [now left | reflexivity].
  - intros H. destruct (IH H) as (c' & Hin & E). exists c'. split; [now right | exact E].
Qed.

Lemma build_report_ok (now : str) (self : System) :
  reachable self ->
  exists analytics report,
    analytics
    = map (fun c => (c, category_analytics self c
                          (keywords_of_category (processed_emails self) c)))
          categories
    /\ build_report now self = Ok report
    /\ report_categories report = analytics
    /\ total_emails_processed report = length (processed_emails self)
    /\ most_active_category report
       = Some (max_from (total_of analytics) (lit "Product Support")
                        [lit "Billing"; lit "General Inquiry"])
    /\ period_start report
       = match map r_timestamp (processed_emails self) with
         | [] => None
         | t :: ts => Some (str_min_from t ts)
         end
    /\ period_end report
       = match map r_timestamp (processed_emails self) with
         | [] => None
         | t :: ts => Some (str_max_from t ts)
         end.
Proof.
  intros Hr. unfold build_report. rewrite (snapshot_entries Hr). cbn [bind].
  eexists; eexists. split; [reflexivity|]. split; [reflexivity|].
  cbn [report_categories total_emails_processed most_active_category
       period_start period_end].
  repeat split.
Qed.

End ReportFacts.

(** X13 - the report always names a most active category, one of the
    three: no category has a greater reported total, the categories listed
    before it have smaller ones (on a tie the first listed wins), and with
    an empty log it is Product Support.  The report's count of processed
    emails is the length of the log. *)
Theorem report_most_active_category (now : str) (self : System) :
  reachable self ->
  exists report c pre post,
    Reports.build_report now self = Ok report
    /\ Reports.total_emails_processed report = length (processed_emails self)
    /\ Reports.most_active_category report = Some c
    /\ categories = pre ++ c :: post
    /\ Forall (fun c' => Reports.total_of (Reports.report_categories report) c'
                         < Reports.total_of (Reports.report_categories report) c) pre
    /\ Forall (fun c' => Reports.total_of (Reports.report_categories report) c'
                         <= Reports.total_of (Reports.report_categories report) c) post
    /\ (processed_emails self = [] -> c = lit "Product Support").
Proof.
  intros Hr.
  destruct (build_report_ok now Hr)
    as (analytics & report & Ha & E & Hcat & Hn & Hmax & _ & _).
  destruct (max_from_first (Reports.total_of analytics)
              [lit "Billing"; lit "General Inquiry"] (lit "Product Support"))
    as (pre & post & Hd & Hpre & Hpost).
  exists report, (Reports.max_from (Reports.total_of analytics) (lit "Product Support")
                    [lit "Billing"; lit "General Inquiry"]), pre, post.
  rewrite Hcat. repeat (split; [assumption|]).
  intros Hlog.
  assert (Hzero : forall k, Reports.total_of analytics k = 0).
  { intros k. unfold Reports.total_of.
    destruct (dict_get k analytics) as [entry|] eqn:Ek; [|reflexivity].
    rewrite Ha in Ek. apply dict_get_map in Ek as (c' & _ & ->).
    rewrite Hlog. reflexivity. }
  destruct pre as [|p pre].
  - cbn [app] in Hd. injection Hd as Hc _. exact (eq_sym Hc).
  - inversion Hpre as [|? ? Hp _]; subst. rewrite !Hzero in Hp. lia.
Qed.

Lemma report_most_active_category_witness :
  exists report c pre post,
    Reports.build_report (lit "2024-01-01T00:00:00") init = Ok report
    /\ Reports.total_emails_processed report = length (processed_emails init)
    /\ Reports.most_active_category report = Some c
    /\ categories = pre ++ c :: post
    /\ Forall (fun c' => Reports.total_of (Reports.report_categories report) c'
                         < Reports.total_of (Reports.report_categories report) c) pre
    /\ Forall (fun c' => Reports.total_of (Reports.report_categories report) c'
                         <= Reports.total_of (Reports.report_categories report) c) post
    /\ (processed_emails init = [] -> c = lit "Product Support").
Proof.
  apply (@report_most_active_category (lit "2024-01-01T00:00:00") init).
  exact reachable_init.
Defined.

(** X14 - the processing period of the report: with an empty log both ends
    are absent; otherwise the start and the end are time stamps of records,
    no time stamp of the log is smaller than the start and none is greater
    than the end, in the order of strings. *)
Theorem report_processing_period (now : str) (self : System) :
  reachable self ->
  exists report,
    Reports.build_report now self = Ok report
    /\ match processed_emails self with
       | [] =>
           Reports.period_start report = None
           /\ Reports.period_end report = None
       | _ :: _ =>
           exists first_stamp last_stamp,
             Reports.period_start report = Some first_stamp
             /\ Reports.period_end report = Some last_stamp
             /\ In first_stamp (map r_timestamp (processed_emails self))
             /\ In last_stamp (map r_timestamp (processed_emails self))
             /\ forall t, In t (map r_timestamp (processed_emails self)) ->
                  Reports.str_ltb t first_stamp = false
                  /\ Reports.str_ltb last_stamp t = false
       end.
Proof.
  intros Hr.
  destruct (build_report_ok now Hr)
    as (analytics & report & _ & E & _ & _ & _ & Hstart & Hend).
  exists report. split; [exact E|].
  destruct (processed_emails self) as [|r log]; cbn [map] in *; [now split|].
  destruct (str_min_from_least (map r_timestamp log) (r_timestamp r)) as (Hin1 & Hle1).
  destruct (str_max_from_greatest (map r_timestamp log) (r_timestamp r)) as (Hin2 & Hle2).
  eexists; eexists. split; [exact Hstart|]. split; [exact Hend|].
  split; [exact Hin1|]. split; [exact Hin2|].
  intros t Ht. split; [now apply Hle1 | now apply Hle2].
Qed.

Lemma report_processing_period_witness :
  exists report,
    Reports.build_report (lit "2024-01-01T00:00:00") Examples.recorded = Ok report
    /\ match processed_emails Examples.recorded with
       | [] =>
           Reports.period_start report = None
           /\ Reports.period_end report = None
       | _ :: _ =>
           exists first_stamp last_stamp,
             Reports.period_start report = Some first_stamp
             /\ Reports.period_end report = Some last_stamp
             /\ In first_stamp (map r_timestamp (processed_emails Examples.recorded))
             /\ In last_stamp (map r_timestamp (processed_emails Examples.recorded))
             /\ forall t, In t (map r_timestamp (processed_emails Examples.recorded)) ->
                  Reports.str_ltb t first_stamp = false
                  /\ Reports.str_ltb last_stamp t = false
       end.
Proof.
  apply (@report_processing_period (lit "2024-01-01T00:00:00") Examples.recorded).
  apply (@reachable_update init Examples.login_issue (lit "Product Support")
           (lit "Email from customer1@example.com - Login issue...")
           Examples.recorded reachable_init).
  reflexivity.
Defined.

(** X15 - [save_analytics_report] never raises.  It returns the file name
    (the given one, or the default one when none or an empty one is given)
    exactly when the report could be built and written, and [None]
    otherwise. *)
Theorem save_analytics_report_outcome (default_name now : str)
    (write : str -> Reports.Report -> exc unit) (self : System)
    (filename : option str) :
  let name := match filename with
              | Some (c :: rest) => c :: rest
              | _ => default_name
              end in
  exists result,
    Reports.save_analytics_report default_name now write self filename = Ok result
    /\ (result = Some name \/ result = None)
    /\ (result = Some name <->
        exists report, Reports.build_report now self = Ok report
                       /\ write name report = Ok tt).
Proof.
  intros name. unfold Reports.save_analytics_report. fold name.
  destruct (Reports.build_report now self) as [report|e]; cbn [bind try_except].
  - destruct (write name report) as [[]|e] eqn:Ew; cbn [bind try_except].
    + exists (Some name). split; [reflexivity|]. split; [now left|].
      split; [intros _; now exists report | reflexivity].
    + exists None. split; [reflexivity|]. split; [now right|].
      split; [discriminate|]. intros (report' & E & Hw).
      injection E as <-. congruence.
  - exists None. split; [reflexivity|]. split; [now right|].
    split; [discriminate|]. intros (report' & E & _). discriminate E.
Qed.

(* ===================================================================== *)
(** ** Reading the inbox *)
(* ===================================================================== *)

Section MailboxLemmas.

Import Mailbox MailboxSpec.

Lemma lstrip_suffix (s : str) : exists p, s = p ++ lstrip s.
Proof.
  induction s as [|c s (p & IH)]; [now exists []|]. cbn [lstrip].
  destruct (py_isspace c).
  - exists (c :: p). cbn [app]. now rewrite <- IH.
  - now exists [].
Qed.

Lemma lstrip_result (s : str) (c : ascii) (r : str) :
  lstrip s = c :: r -> py_isspace c = false.
Proof.
  induction s as [|x s IH]; cbn [lstrip]; [discriminate|].
  destruct (py_isspace x) eqn:E; [exact IH|].
  intros H. injection H as <- _. exact E.
Qed.

(** [strip] leaves nothing, or a string that neither starts nor ends with
    white space. *)
Lemma py_strip_result (s : str) :
  py_strip s = [] \/ stripped (py_strip s) = true.
Proof.
  unfold py_strip.
  destruct (lstrip (rev (lstrip s))) as [|z r] eqn:Er; [now left|]. right.
  pose proof (lstrip_result _ Er) as Hz.
  destruct (lstrip_suffix (rev (lstrip s))) as (p & Hp). rewrite Er in Hp.
  destruct (lstrip s) as [|c0 a] eqn:Ea.
  - destruct p; discriminate Hp.
  - pose proof (lstrip_result _ Ea) as Hc0.
    assert (Hlast : last (z :: r) z = c0).
    { rewrite <- (@last_app_nonempty _ p (z :: r) z z) by discriminate.
      rewrite <- Hp. cbn [rev]. apply last_last. }
    destruct (exists_last (l := z :: r)) as (r0 & y & Ey); [discriminate|].
    rewrite Ey in Hlast. rewrite last_last in Hlast. subst y.
    rewrite Ey, rev_app_distr. cbn [rev app stripped].
    rewrite Hc0. cbn [negb andb].
    assert (Hl : last (c0 :: rev r0) c0 = z).
    { destruct r0 as [|y r0]; cbn [app] in Ey; injection Ey as Hy Hr.
      - now subst.
      - subst y. cbn [rev]. change (c0 :: rev r0 ++ [z]) with ((c0 :: rev r0) ++ [z]).
        apply last_last. }
    now rewrite Hl, Hz.
Qed.

Lemma first_plain_none (parts : list MimePart) :
  forallb (fun p => negb (is_plain p)) parts = true -> first_plain parts = Ok [].
Proof.
  induction parts as [|p parts IH]; [reflexivity|]. cbn [forallb first_plain].
  intros H. apply andb_true_iff in H as [Hp H]. unfold is_plain in Hp.
  apply negb_true_iff in Hp. rewrite Hp. now apply IH.
Qed.

Lemma first_plain_first (pre post : list MimePart) (p : MimePart) :
  forallb (fun q => negb (is_plain q)) pre = true -> is_plain p = true ->
  first_plain (pre ++ p :: post) = decoded_payload p.
Proof.
  intros Hpre Hp. induction pre as [|q pre IH]; cbn [app first_plain].
  - unfold is_plain in Hp. now rewrite Hp.
  - cbn [forallb] in Hpre. apply andb_true_iff in Hpre as [Hq Hpre].
    unfold is_plain in Hq. apply negb_true_iff in Hq. rewrite Hq. now apply IH.
Qed.

Lemma read_parts_tuples (clock : nat -> str) (email_id : str)
    (msg_data : list ResponsePart) :
  forall emails,
    read_parts clock email_id emails msg_data
    = read_parts clock email_id emails (map Tuple (tuples msg_data)).
Proof.
  induction msg_data as [|[raw|] rest IH]; intros emails; [reflexivity| |].
  - cbn [tuples map read_parts].
    destruct (read_part clock email_id emails (Tuple raw)); cbn [bind];
      [apply IH | reflexivity].
  - cbn [tuples read_parts read_part bind]. apply IH.
Qed.

(** A failing fetch makes the whole reading fail. *)
Lemma read_ids_failing (mail : Imap) (clock : nat -> str) (bad : str) (e : exn)
    (email_ids : list str) :
  In bad email_ids -> fetch_rfc822 mail bad = Raise e ->
  forall emails, exists e', read_ids mail clock emails email_ids = Raise e'.
Proof.
  intros Hin Hbad. induction email_ids as [|x email_ids IH]; [destruct Hin|].
  intros emails. cbn [read_ids].
  destruct (fetch_rfc822 mail x) as [msg_data|e1] eqn:Ex; cbn [bind].
  - destruct (read_parts clock x emails msg_data) as [emails'|e2]; cbn [bind].
    + apply IH. destruct Hin as [->|Hin]; [congruence | exact Hin].
    + now exists e2.
  - now exists e1.
Qed.

(** Reading ids that each answer with one readable message. *)
Lemma read_ids_readable (mail : Imap) (clock : nat -> str) (email_ids : list str) :
  (forall i, In i email_ids ->
     exists msg_data raw s b,
       fetch_rfc822 mail i = Ok msg_data /\ tuples msg_data = [raw]
       /\ subject_header raw = Ok s
       /\ extract_email_body (content raw) = Ok b) ->
  forall emails, exists added,
    read_ids mail clock emails email_ids = Ok (emails ++ added)
    /\ map id added = email_ids
    /\ map timestamp added
       = map clock (seq (length emails) (length email_ids)).
Proof.
  induction email_ids as [|x email_ids IH]; intros Hall emails.
  - exists []. cbn [read_ids]. now rewrite app_nil_r.
  - destruct (Hall x (or_introl eq_refl)) as (msg_data & raw & s & b & Ef & Et & Es & Eb).
    cbn [read_ids]. rewrite Ef. cbn [bind].
    rewrite read_parts_tuples, Et. cbn [map read_parts read_part].
    rewrite Es, Eb. cbn [bind].
    destruct (IH (fun i Hi => Hall i (or_intror Hi))
                 (emails ++ [{| id := x; subject := s; sender := from_header raw;
                                body := b; timestamp := clock (length emails) |}]))
      as (added & E & Hid & Hts).
    eexists (_ :: added). split; [|split].
    + rewrite E, <- app_assoc. reflexivity.
    + cbn [map id]. now rewrite Hid.
    + cbn [map timestamp length seq]. rewrite Hts. f_equal.
      rewrite length_app. cbn [length].
      now replace (length emails + 1) with (S (length emails)) by lia.
Qed.

End MailboxLemmas.

Section MailboxFailures.

Import Mailbox MailboxSpec.

Lemma read_parts_unreadable (clock : nat -> str) (email_id : str)
    (msg_data : list ResponsePart) (raw : RawEmail) :
  In (Tuple raw) msg_data ->
  (exists e, subject_header raw = Raise e)
  \/ (exists e, extract_email_body (content raw) = Raise e) ->
  forall emails, exists e', read_parts clock email_id emails msg_data = Raise e'.
Proof.
  intros Hin Hbad. induction msg_data as [|part rest IH]; [destruct Hin|].
  intros emails. cbn [read_parts].
  destruct (read_part clock email_id emails part) as [emails'|e1] eqn:Ep;
    cbn [bind]; [|now exists e1].
  destruct Hin as [->|Hin]; [|now apply IH].
  exfalso. cbn [read_part] in Ep.
  destruct Hbad as [(e & Hs)|(e & Hb)].
  - rewrite Hs in Ep. discriminate Ep.
  - destruct (subject_header raw); cbn [bind] in Ep; [|discriminate Ep].
    rewrite Hb in Ep. discriminate Ep.
Qed.

Lemma read_ids_unreadable (mail : Imap) (clock : nat -> str) (bad : str)
    (msg_data : list ResponsePart) (raw : RawEmail) (email_ids : list str) :
  In bad email_ids -> fetch_rfc822 mail bad = Ok msg_data ->
  In (Tuple raw) msg_data ->
  (exists e, subject_header raw = Raise e)
  \/ (exists e, extract_email_body (content raw) = Raise e) ->
  forall emails, exists e', read_ids mail clock emails email_ids = Raise e'.
Proof.
  intros Hin Hf Hraw Hbad. induction email_ids as [|x email_ids IH]; [destruct Hin|].
  intros emails. cbn [read_ids].
  destruct (fetch_rfc822 mail x) as [data|e1] eqn:Ex; cbn [bind]; [|now exists e1].
  destruct (read_parts clock x emails data) as [emails'|e2] eqn:Er; cbn [bind];
    [|now exists e2].
  destruct Hin as [->|Hin]; [|now apply IH].
  rewrite Hf in Ex. injection Ex as <-.
  destruct (@read_parts_unreadable clock bad msg_data raw Hraw Hbad emails) as (e' & E').
  congruence.
Qed.

End MailboxFailures.

(** X16 - the body [extract_email_body] returns never starts or ends with
    white space (it is empty, or its first and last characters are not
    white space), and a multipart message without any text/plain part has
    the empty body. *)
Theorem extract_email_body_shape (msg : Mailbox.MimePart) :
  (forall b, Mailbox.extract_email_body msg = Ok b -> b = [] \/ stripped b = true)
  /\ (Mailbox.is_multipart msg = true ->
      forallb (fun p => negb (MailboxSpec.is_plain p)) (Mailbox.walk msg) = true ->
      Mailbox.extract_email_body msg = Ok []).
Proof.
  split.
  - intros b. unfold Mailbox.extract_email_body.
    destruct (if Mailbox.is_multipart msg then _ else _) as [body|e];
      cbn [bind]; [|discriminate].
    intros H. injection H as <-. apply py_strip_result.
  - intros Hm Hall. unfold Mailbox.extract_email_body. rewrite Hm.
    now rewrite (@first_plain_none _ Hall).
Qed.

(** X17 - in a multipart message the first text/plain part, in the order
    of [walk], gives the body: the body is its text without surrounding
    white space, the parts after it are not looked at, and when its text
    cannot be decoded the method raises. *)
Theorem extract_email_body_first_plain (msg : Mailbox.MimePart)
    (pre post : list Mailbox.MimePart) (p : Mailbox.MimePart) :
  Mailbox.is_multipart msg = true ->
  Mailbox.walk msg = pre ++ p :: post ->
  forallb (fun q => negb (MailboxSpec.is_plain q)) pre = true ->
  MailboxSpec.is_plain p = true ->
  Mailbox.extract_email_body msg
  = match Mailbox.decoded_payload p with
    | Ok text => Ok (py_strip text)
    | Raise e => Raise e
    end.
Proof.
  intros Hm Hw Hpre Hp. unfold Mailbox.extract_email_body.
  rewrite Hm, Hw, (@first_plain_first pre post p Hpre Hp).
  now destruct (Mailbox.decoded_payload p).
Qed.

Lemma extract_email_body_first_plain_witness :
  Mailbox.extract_email_body MailboxSpec.alternative_mail = Ok (lit "Hello").
Proof.
  apply (@extract_email_body_first_plain MailboxSpec.alternative_mail
           [MailboxSpec.alternative_mail;
            Mailbox.Leaf (lit "text/html") (Ok (lit "<p>Hello</p>"))]
           [Mailbox.Leaf (lit "text/plain") (Raise ServiceError)]
           (Mailbox.Leaf (lit "text/plain") (Ok (lit "  Hello
")))).
  - reflexivity.
  - reflexivity.
  - reflexivity.
  - reflexivity.
Defined.

(** X18 - [fetch_unread_emails] never raises, and it is all or nothing:
    when the search fails, when the fetch of one of the last ten unread ids
    fails, or when one of their messages has a subject or a body that
    cannot be decoded, the result is the empty list, the messages read
    before the failure included. *)
Theorem fetch_unread_emails_all_or_nothing (mail : Mailbox.Imap) (clock : nat -> str) :
  (exists emails, Mailbox.fetch_unread_emails mail clock = Ok emails)
  /\ (forall e, Mailbox.search_unseen mail = Raise e ->
        Mailbox.fetch_unread_emails mail clock = Ok [])
  /\ (forall email_ids bad e,
        Mailbox.search_unseen mail = Ok email_ids ->
        In bad (Mailbox.last_n 10 email_ids) ->
        Mailbox.fetch_rfc822 mail bad = Raise e ->
        Mailbox.fetch_unread_emails mail clock = Ok [])
  /\ (forall email_ids bad msg_data raw,
        Mailbox.search_unseen mail = Ok email_ids ->
        In bad (Mailbox.last_n 10 email_ids) ->
        Mailbox.fetch_rfc822 mail bad = Ok msg_data ->
        In (Mailbox.Tuple raw) msg_data ->
        (exists e, Mailbox.subject_header raw = Raise e)
        \/ (exists e, Mailbox.extract_email_body (Mailbox.content raw) = Raise e) ->
        Mailbox.fetch_unread_emails mail clock = Ok []).
Proof.
  unfold Mailbox.fetch_unread_emails. split; [|split; [|split]].
  - destruct (Mailbox.search_unseen mail) as [ids|e]; cbn [bind try_except].
    + destruct (Mailbox.read_ids mail clock [] (Mailbox.last_n 10 ids));
        eexists; reflexivity.
    + eexists; reflexivity.
  - intros e ->. reflexivity.
  - intros ids bad e -> Hin Hbad. cbn [bind].
    destruct (@read_ids_failing mail clock bad e _ Hin Hbad []) as (e' & ->).
    reflexivity.
  - intros ids bad msg_data raw -> Hin Hf Hraw Hbad. cbn [bind].
    destruct (@read_ids_unreadable mail clock bad msg_data raw _ Hin Hf Hraw Hbad []) as (e' & ->).
    reflexivity.
Qed.

(** X19 - when the search succeeds and each of the last ten unread ids
    answers with one message whose subject and body can be decoded, the
    method returns one message per such id, in the order of the ids: at
    most ten messages, none for an older id, each stamped with the clock at
    the time it is appended. *)
Theorem fetch_unread_emails_last_ten (mail : Mailbox.Imap) (clock : nat -> str)
    (email_ids : list str) :
  Mailbox.search_unseen mail = Ok email_ids ->
  (forall i, In i (Mailbox.last_n 10 email_ids) ->
     exists msg_data raw s b,
       Mailbox.fetch_rfc822 mail i = Ok msg_data
       /\ MailboxSpec.tuples msg_data = [raw]
       /\ Mailbox.subject_header raw = Ok s
       /\ Mailbox.extract_email_body (Mailbox.content raw) = Ok b) ->
  exists emails,
    Mailbox.fetch_unread_emails mail clock = Ok emails
    /\ map id emails = Mailbox.last_n 10 email_ids
    /\ length emails = min 10 (length email_ids)
    /\ map timestamp emails = map clock (seq 0 (length emails)).
Proof.
  intros Hs Hall. unfold Mailbox.fetch_unread_emails. rewrite Hs. cbn [bind].
  destruct (@read_ids_readable mail clock _ Hall []) as (added & E & Hid & Hts).
  rewrite E. cbn [app try_except]. exists added.
  assert (Hlen : length added = min 10 (length email_ids)).
  { rewrite <- (length_map id), Hid. unfold Mailbox.last_n.
    rewrite length_skipn. lia. }
  split; [reflexivity|]. split; [exact Hid|]. split; [exact Hlen|].
  cbn [length] in Hts. rewrite Hts.
  now rewrite <- (length_map id added), Hid.
Qed.

Lemma fetch_unread_emails_last_ten_witness :
  exists emails,
    Mailbox.fetch_unread_emails (MailboxSpec.sample_server false)
      MailboxSpec.sample_clock = Ok emails
    /\ map id emails = Mailbox.last_n 10 [lit "1"; lit "2"]
    /\ length emails = min 10 (length [lit "1"; lit "2"])
    /\ map timestamp emails = map MailboxSpec.sample_clock (seq 0 (length emails)).
Proof.
  apply (@fetch_unread_emails_last_ten (MailboxSpec.sample_server false)
           MailboxSpec.sample_clock [lit "1"; lit "2"]).
  - reflexivity.
  - intros i [<-|[<-|[]]]; do 4 eexists; repeat split; reflexivity.
Defined.

(* ===================================================================== *)
(** ** The keywords of a text, exactly *)
(* ===================================================================== *)

Section KeywordOccurrences.

Variable sep : ascii -> bool.

(** Where a piece lies in the text: a piece after the first one is
    preceded by a separator, and every piece is followed by a separator or
    by the end of the text. *)
Lemma split_by_occurrence (s : str) :
  forall h t, split_by sep s = h :: t ->
  forall w, In w t ->
    exists p c post,
      s = (p ++ [c]) ++ w ++ post /\ sep c = true
      /\ Forall (fun x => sep x = false) w
      /\ (post = [] \/ exists d q, post = d :: q /\ sep d = true).
Proof.
  induction s as [|x s IH]; cbn [split_by]; intros h t E w Hw.
  - injection E as <- <-. destruct Hw.
  - destruct (split_by_cons sep s) as (h' & t' & E').
    rewrite E' in E. destruct (sep x) eqn:Hx.
    + injection E as <- <-. destruct Hw as [<-|Hw].
      * destruct (split_by_head _ s E') as (Hh & rest & Es & Hrest).
        exists [], x, rest. cbn [app]. rewrite Es at 1.
        split; [reflexivity|]. split; [exact Hx|]. split; [exact Hh | exact Hrest].
      * destruct (IH _ _ E' w Hw) as (p & c & post & Es & Hc & Hw' & Hpost).
        exists (x :: p), c, post. cbn [app]. rewrite Es at 1.
        split; [reflexivity|]. split; [exact Hc|]. split; [exact Hw' | exact Hpost].
    + injection E as <- <-.
      destruct (IH _ _ E' w Hw) as (p & c & post & Es & Hc & Hw' & Hpost).
      exists (x :: p), c, post. cbn [app]. rewrite Es at 1.
      split; [reflexivity|]. split; [exact Hc|]. split; [exact Hw' | exact Hpost].
Qed.

End KeywordOccurrences.

Section KeywordCharacterization.

Lemma lower_letters (w : str) :
  Forall (fun c => is_ascii_lower c = true) w -> forallb is_ascii_letter w = true.
Proof.
  intros H. apply forallb_forall. rewrite Forall_forall in H.
  intros c Hc. unfold is_ascii_letter. now rewrite (H c Hc).
Qed.

Lemma letters_are_words (w : str) :
  forallb is_ascii_letter w = true -> Forall (fun c => is_word c = true) w.
Proof.
  intros H. apply Forall_forall. rewrite forallb_forall in H.
  intros c Hc. apply letter_is_word. now apply H.
Qed.

(** A run of word characters between two boundaries is a piece of the
    text. *)
Lemma word_run_found (pre w post : str) :
  word_opt (prev_after None pre) = false ->
  word_opt (hd_error post) = false ->
  Forall (fun c => is_word c = true) w ->
  In w (word_runs (pre ++ w ++ post)).
Proof.
  intros Hpre Hpost Hw.
  destruct (word_runs_seam pre post Hw) as (init & la & hb & tb & Ea & Eb & ->).
  assert (Hla : la = []).
  { destruct pre as [|x pre'] using rev_ind.
    - destruct init as [|i [|j init]]; cbn in Ea; try discriminate Ea.
      now injection Ea as <-.
    - unfold prev_after in Hpre. rewrite map_app in Hpre. cbn [map] in Hpre.
      rewrite last_last in Hpre. cbn [word_opt] in Hpre.
      unfold word_runs in Ea. apply split_by_last in Ea.
      now rewrite Hpre in Ea. }
  assert (Hhb : hb = []).
  { destruct post as [|d q]; unfold word_runs in Eb; cbn [split_by] in Eb.
    - now injection Eb as <- _.
    - cbn [hd_error word_opt] in Hpost. rewrite Hpost in Eb. cbn [negb] in Eb.
      now injection Eb as <- _. }
  subst la hb. rewrite app_nil_r. cbn [app]. apply in_or_app. right. now left.
Qed.

(** A non-empty piece of the text lies between two boundaries. *)
Lemma word_run_occurrence (s w : str) :
  In w (word_runs s) -> w <> [] ->
  exists pre post,
    s = pre ++ w ++ post
    /\ word_opt (prev_after None pre) = false
    /\ word_opt (hd_error post) = false.
Proof.
  intros Hin Hw. unfold word_runs in Hin.
  destruct (split_by_cons (fun c => negb (is_word c)) s) as (h & t & E).
  rewrite E in Hin. destruct Hin as [<-|Hin].
  - destruct (split_by_head _ s E) as (_ & rest & Es & Hrest).
    exists [], rest. split; [exact Es|]. split; [reflexivity|].
    destruct Hrest as [->|(d & q & -> & Hd)]; [reflexivity|].
    cbn. now apply negb_true_iff in Hd.
  - destruct (split_by_occurrence _ s E w Hin)
      as (p & c & post & Es & Hc & _ & Hpost).
    exists (p ++ [c]), post. split; [exact Es|]. split.
    + unfold prev_after. rewrite map_app. cbn [map]. rewrite last_last.
      cbn. now apply negb_true_iff in Hc.
    + destruct Hpost as [->|(d & q & -> & Hd)]; [reflexivity|].
      cbn. now apply negb_true_iff in Hd.
Qed.

End KeywordCharacterization.

(** X20 - the keywords of a text, exactly: [w] is among them if and only if
    [w] has three or more characters, all lower-case letters a-z, is not a
    stop word, and occurs in the lower-cased text with no word character
    (letter, digit or underscore) right before it and none right after
    it. *)
Theorem extract_keywords_exactly (text w : str) :
  In w (extract_keywords text) <->
  (3 <= length w
   /\ Forall (fun c => is_ascii_lower c = true) w
   /\ ~ In w stop_words
   /\ exists pre post,
        py_lower text = pre ++ w ++ post
        /\ word_opt (prev_after None pre) = false
        /\ word_opt (hd_error post) = false).
Proof.
  split.
  - intros Hin. pose proof (extract_keywords_shape text) as Hshape.
    rewrite Forall_forall in Hshape. destruct (Hshape w Hin) as (Hlen & Hlow & Hstop).
    repeat (split; [assumption|]).
    rewrite extract_keywords_runs in Hin.
    apply filter_In in Hin as [Hin _]. apply filter_In in Hin as [Hin _].
    apply word_run_occurrence; [exact Hin|].
    intros ->. cbn in Hlen. lia.
  - intros (Hlen & Hlow & Hstop & pre & post & Es & Hpre & Hpost).
    rewrite extract_keywords_runs. apply filter_In. split.
    + apply filter_In. split.
      * rewrite Es. apply word_run_found; auto.
        apply letters_are_words. now apply lower_letters.
      * unfold keyword_shape. apply andb_true_iff. split.
        -- now apply Nat.leb_le.
        -- now apply lower_letters.
    + apply andb_true_iff. split.
      * apply negb_true_iff. destruct (str_mem w stop_words) eqn:E; [|reflexivity].
        apply str_mem_In in E. now destruct Hstop.
      * apply Nat.ltb_lt. lia.
Qed.

(* ===================================================================== *)
(** ** The configuration *)
(* ===================================================================== *)

Section SettingsLemmas.

Import Settings.

Lemma config_get_truthy (entries : list (str * jvalue)) (key : str) :
  config_get (JDict entries) key
  = Config_ok (match dict_get key entries with Some v => v | None => JNull end)
  /\ truthy (match dict_get key entries with Some v => v | None => JNull end)
     = has_setting entries key.
Proof.
  unfold config_get, has_setting. now destruct (dict_get key entries).
Qed.

Lemma validate_all (entries : list (str * jvalue)) (keys : list str) :
  forallb (has_setting entries) keys = true ->
  validate (JDict entries) keys = Config_ok (JDict entries).
Proof.
  induction keys as [|k keys IH]; [reflexivity|]. cbn [forallb validate].
  intros H. apply andb_true_iff in H as [Hk H].
  destruct (config_get_truthy entries k) as (-> & Ht).
  rewrite Ht, Hk. now apply IH.
Qed.

Lemma validate_first_missing (entries : list (str * jvalue))
    (pre post : list str) (k : str) :
  forallb (has_setting entries) pre = true -> has_setting entries k = false ->
  validate (JDict entries) (pre ++ k :: post)
  = Config_error (MissingConfiguration k).
Proof.
  intros Hpre Hk. induction pre as [|p pre IH]; cbn [app validate].
  - destruct (config_get_truthy entries k) as (-> & Ht). now rewrite Ht, Hk.
  - cbn [forallb] in Hpre. apply andb_true_iff in Hpre as [Hp Hpre].
    destruct (config_get_truthy entries p) as (-> & Ht). rewrite Ht, Hp.
    now apply IH.
Qed.

Lemma validate_ok (config : jvalue) (keys : list str) (result : jvalue) :
  keys <> [] ->
  validate config keys = Config_ok result ->
  result = config
  /\ exists entries, config = JDict entries
                     /\ forallb (has_setting entries) keys = true.
Proof.
  intros Hk H.
  destruct config as [| | | | |entries];
    try (destruct keys; [now destruct Hk | discriminate H]).
  clear Hk. assert (Hgen : result = JDict entries
                           /\ forallb (has_setting entries) keys = true).
  { induction keys as [|k keys IH]; cbn [validate forallb] in *.
    - injection H as <-. now split.
    - destruct (config_get_truthy entries k) as (E & Ht). rewrite E, Ht in H.
      destruct (has_setting entries k); [|discriminate H].
      destruct (IH H) as (-> & Hall). now split. }
  destruct Hgen as (-> & Hall). split; [reflexivity|]. now exists entries.
Qed.

End SettingsLemmas.

(** X21 - a configuration that [load_config] returns is a dictionary that
    holds a true value (for a string: a non-empty one) under each of the
    four required keys, whether it comes from the file or from the
    environment. *)
Theorem load_config_validated (py_int : str -> option Z)
    (file : Settings.FileOutcome) (env : dict str) (config : Settings.jvalue) :
  Settings.load_config py_int file env = Settings.Config_ok config ->
  exists entries,
    config = Settings.JDict entries
    /\ forall key, In key Settings.required_keys ->
         exists v, dict_get key entries = Some v /\ Settings.truthy v = true.
Proof.
  unfold Settings.load_config. intros H.
  destruct (match file with
            | Settings.Loaded c => Settings.Config_ok c
            | Settings.FileNotFound => Settings.config_from_env py_int env
            | Settings.ReadFailure => Settings.Config_error Settings.CannotRead
            end) as [candidate|e]; [|discriminate H].
  apply validate_ok in H; [|discriminate].
  destruct H as (-> & entries & -> & Hall).
  exists entries. split; [reflexivity|]. intros key Hkey.
  rewrite forallb_forall in Hall. specialize (Hall key Hkey).
  unfold Settings.has_setting in Hall.
  destruct (dict_get key entries) as [v|]; [|discriminate Hall]. now exists v.
Qed.

Lemma load_config_validated_witness :
  exists entries,
    Settings.minimal_file = Settings.JDict entries
    /\ forall key, In key Settings.required_keys ->
         exists v, dict_get key entries = Some v /\ Settings.truthy v = true.
Proof.
  apply (@load_config_validated Settings.sample_int
           (Settings.Loaded Settings.minimal_file) [] Settings.minimal_file).
  reflexivity.
Defined.

(** X22 - a configuration file replaces the environment altogether: a
    dictionary with true values under the four required keys is returned
    as it is, without the defaults for the server, the port and the
    channels, whatever the environment holds; otherwise the error names the
    first required key, in the order gemini_api_key, email_username,
    email_password, slack_webhook_url, that is missing or false; a file
    that does not hold a dictionary is refused. *)
Theorem load_config_from_file (py_int : str -> option Z) (env : dict str) :
  (forall entries,
     forallb (Settings.has_setting entries) Settings.required_keys = true ->
     Settings.load_config py_int (Settings.Loaded (Settings.JDict entries)) env
     = Settings.Config_ok (Settings.JDict entries))
  /\ (forall entries pre key post,
        Settings.required_keys = pre ++ key :: post ->
        forallb (Settings.has_setting entries) pre = true ->
        Settings.has_setting entries key = false ->
        Settings.load_config py_int (Settings.Loaded (Settings.JDict entries)) env
        = Settings.Config_error (Settings.MissingConfiguration key))
  /\ (forall v,
        (forall entries, v <> Settings.JDict entries) ->
        Settings.load_config py_int (Settings.Loaded v) env
        = Settings.Config_error Settings.NotAMapping).
Proof.
  unfold Settings.load_config. split; [|split].
  - intros entries H. now apply validate_all.
  - intros entries pre key post -> Hpre Hkey. now apply validate_first_missing.
  - intros v Hv. destruct v; try reflexivity. now destruct (Hv entries).
Qed.

(** X23 - without a configuration file the settings come from the
    environment: a port that is not a number is an error before any key is
    checked; otherwise, when the four required variables are set and not
    empty, the configuration is returned with the server defaulting to
    imap.gmail.com, the port to [int("993")] and the three default
    channels; and an unset or empty required variable is reported, the
    first missing one by its key. *)
Theorem load_config_from_env (py_int : str -> option Z) (env : dict str) :
  (py_int (Settings.getenv_default env (lit "EMAIL_PORT") (lit "993")) = None ->
   Settings.load_config py_int Settings.FileNotFound env
   = Settings.Config_error Settings.InvalidPort)
  /\ (forall port,
        py_int (Settings.getenv_default env (lit "EMAIL_PORT") (lit "993"))
        = Some port ->
        exists entries,
          Settings.config_from_env py_int env
          = Settings.Config_ok (Settings.JDict entries)
          /\ dict_get (lit "slack_channels") entries = Some Settings.default_channels
          /\ dict_get (lit "email_port") entries = Some (Settings.JInt port)
          /\ (dict_get (lit "EMAIL_SERVER") env = None ->
              dict_get (lit "email_server") entries
              = Some (Settings.JStr (lit "imap.gmail.com")))
          /\ (dict_get (lit "EMAIL_PORT") env = None -> py_int (lit "993") = Some port)
          /\ (forallb (Settings.has_setting entries) Settings.required_keys = true ->
              Settings.load_config py_int Settings.FileNotFound env
              = Settings.Config_ok (Settings.JDict entries))
          /\ (forall pre key post,
                Settings.required_keys = pre ++ key :: post ->
                forallb (Settings.has_setting entries) pre = true ->
                Settings.has_setting entries key = false ->
                Settings.load_config py_int Settings.FileNotFound env
                = Settings.Config_error (Settings.MissingConfiguration key))
          /\ (forall name key,
                In (name, key)
                   [(lit "GEMINI_API_KEY", lit "gemini_api_key");
                    (lit "EMAIL_USERNAME", lit "email_username");
                    (lit "EMAIL_PASSWORD", lit "email_password");
                    (lit "SLACK_WEBHOOK_URL", lit "slack_webhook_url")] ->
                Settings.has_setting entries key
                = match dict_get name env with
                  | Some (_ :: _) => true
                  | _ => false
                  end)).
Proof.
  unfold Settings.load_config, Settings.config_from_env. split.
  - intros ->. reflexivity.
  - intros port Hport. rewrite Hport. eexists. split; [reflexivity|].
    split; [reflexivity|]. split; [reflexivity|]. split.
    { intros H. unfold Settings.getenv_default, get_default. rewrite H. reflexivity. }
    split.
    { intros H. unfold Settings.getenv_default, get_default in Hport.
      now rewrite H in Hport. }
    split; [intros H; now apply validate_all|]. split.
    { intros pre key post -> Hpre Hkey. now apply validate_first_missing. }
    intros name key Hin.
    repeat (destruct Hin as [Hin|Hin];
            [injection Hin as <- <-; unfold Settings.has_setting, Settings.getenv;
             cbn [dict_get]; cbn;
             match goal with |- context [dict_get ?k env] =>
               destruct (dict_get k env) as [[|? ?]|] end; reflexivity|]).
    destruct Hin.
Qed.
